(** * KDE settings-module search: the descriptor parser, the scanner,
      the search filter and the launch invokers of
      [src/utils/command-executor.ts] and the [SearchSettings] command.

    The development is a shallow embedding.  JavaScript strings are
    sequences of UTF-16 code units; the file system, the locale services
    of the runtime ([toLowerCase], [localeCompare]) and the process
    boundary are explicit parameters. *)

From Stdlib Require Import Strings.String Strings.Ascii.
From Stdlib Require Import List NArith ZArith Bool Lia.
From Stdlib Require Import Permutation Sorting.Sorted.
Import ListNotations.

Set Implicit Arguments.

(* ================================================================== *)
(** * Part I.  Definitions                                             *)
(* ================================================================== *)

(** ** JavaScript strings *)

(** A string is the list of its UTF-16 code units. *)
Definition jsstring : Type := list N.

(** Literals of the source, written as Rocq strings (Basic Latin only). *)
Definition str (s : String.string) : jsstring :=
  map Ascii.N_of_ascii (String.list_ascii_of_string s).
Arguments str s%_string.

(** [a === b] on strings. *)
Fixpoint eqb_str (a b : jsstring) : bool :=
  match a, b with
  | [], [] => true
  | x :: a', y :: b' => N.eqb x y && eqb_str a' b'
  | _, _ => false
  end.

(** Truthiness of a string: [!s] holds exactly for the empty string. *)
Definition truthy (s : jsstring) : bool :=
  match s with [] => false | _ :: _ => true end.

(** ECMAScript [WhiteSpace] and [LineTerminator] code points: the set
    removed by [String.prototype.trim] and matched by the class [\s]. *)
Definition isWhiteSpace (c : N) : bool :=
  match c with
  | 9 | 10 | 11 | 12 | 13 | 32 | 160 | 5760
  | 8232 | 8233 | 8239 | 8287 | 12288 | 65279 => true
  | _ => (8192 <=? c) && (c <=? 8202)
  end%N.

(** [s.startsWith(p)] *)
Fixpoint startsWith (p s : jsstring) : bool :=
  match p, s with
  | [], _ => true
  | x :: p', y :: s' => N.eqb x y && startsWith p' s'
  | _ :: _, [] => false
  end.

(** [s.endsWith(p)] *)
Definition endsWith (p s : jsstring) : bool :=
  startsWith (rev p) (rev s).

(** [s.includes(p)]: [p] occurs in [s] at some position. *)
Fixpoint includes (p s : jsstring) : bool :=
  startsWith p s ||
  match s with
  | [] => false
  | _ :: s' => includes p s'
  end.

(** [s.substring(n)] for [0 <= n]: the suffix from position [n], empty when
    [n] is past the end. *)
Definition substring (n : nat) (s : jsstring) : jsstring := skipn n s.

Fixpoint dropWhile (f : N -> bool) (s : jsstring) : jsstring :=
  match s with
  | [] => []
  | c :: s' => if f c then dropWhile f s' else s
  end.

(** [s.trim()] *)
Definition trim (s : jsstring) : jsstring :=
  rev (dropWhile isWhiteSpace (rev (dropWhile isWhiteSpace s))).

(** [s.split(sep)] for a one-code-unit separator: the pieces between the
    occurrences of [sep]; the empty string gives one empty piece. *)
Fixpoint split (sep : N) (s : jsstring) : list jsstring :=
  match s with
  | [] => [[]]
  | c :: s' =>
      if N.eqb c sep then [] :: split sep s'
      else match split sep s' with
           | [] => [[c]]
           | w :: ws => (c :: w) :: ws
           end
  end.

(** [s.split(/\s+/)]: the pieces between the maximal runs of white space.
    A run at the start or the end of [s] leaves an empty first or last
    piece, and the empty string gives one empty piece. *)
Fixpoint splitWhitespace (s : jsstring) : list jsstring :=
  match s with
  | [] => [[]]
  | c :: s' =>
      if isWhiteSpace c then
        match s' with
        | c' :: _ => if isWhiteSpace c' then splitWhitespace s'
                     else [] :: splitWhitespace s'
        | [] => [[]; []]
        end
      else match splitWhitespace s' with
           | [] => [[c]]
           | w :: ws => (c :: w) :: ws
           end
  end.

(** Line feed, comma and the path separator. *)
Definition LF : N := 10.
Definition COMMA : N := 44.
Definition SLASH : N := 47.

(** ** The module descriptor *)

Record KCMModule : Type := {
  id : jsstring;
  name : jsstring;
  description : jsstring;
  icon : jsstring;
  keywords : list jsstring;
  execCommand : jsstring
}.

(** ** The descriptor parser, [parseDesktopFile] *)

(** The six local variables of [parseDesktopFile]. *)
Record Locals : Type := {
  v_name : jsstring;
  v_description : jsstring;
  v_icon : jsstring;
  v_keywords : list jsstring;
  v_moduleId : jsstring;
  v_execCommand : jsstring
}.

(** Their initial values. *)
Definition initLocals : Locals :=
  {| v_name := []; v_description := []; v_icon := [];
     v_keywords := []; v_moduleId := []; v_execCommand := [] |}.

(** [keywordStr.split(',').map(k => k.trim()).filter(k => k.length > 0)] *)
Definition parseKeywords (keywordStr : jsstring) : list jsstring :=
  filter (fun k => Nat.ltb 0 (length k)) (map trim (split COMMA keywordStr)).

(** The body of the loop over the lines: one [if / else if] chain. *)
Definition parseLine (v : Locals) (line : jsstring) : Locals :=
  if startsWith (str "Name=") line && negb (includes (str "[") line) then
    {| v_name := trim (substring 5 line);
       v_description := v_description v; v_icon := v_icon v;
       v_keywords := v_keywords v; v_moduleId := v_moduleId v;
       v_execCommand := v_execCommand v |}
  else if startsWith (str "Comment=") line && negb (includes (str "[") line) then
    {| v_name := v_name v;
       v_description := trim (substring 8 line);
       v_icon := v_icon v;
       v_keywords := v_keywords v; v_moduleId := v_moduleId v;
       v_execCommand := v_execCommand v |}
  else if startsWith (str "Icon=") line then
    {| v_name := v_name v; v_description := v_description v;
       v_icon := trim (substring 5 line);
       v_keywords := v_keywords v; v_moduleId := v_moduleId v;
       v_execCommand := v_execCommand v |}
  else if startsWith (str "X-KDE-Keywords=") line
          && negb (includes (str "[") line) then
    {| v_name := v_name v; v_description := v_description v;
       v_icon := v_icon v;
       v_keywords := parseKeywords (trim (substring 15 line));
       v_moduleId := v_moduleId v;
       v_execCommand := v_execCommand v |}
  else if startsWith (str "X-KDE-Library=") line then
    {| v_name := v_name v; v_description := v_description v;
       v_icon := v_icon v; v_keywords := v_keywords v;
       v_moduleId := trim (substring 14 line);
       v_execCommand := v_execCommand v |}
  else if startsWith (str "Exec=") line then
    {| v_name := v_name v; v_description := v_description v;
       v_icon := v_icon v; v_keywords := v_keywords v;
       v_moduleId := v_moduleId v;
       v_execCommand := trim (substring 5 line) |}
  else v.

(** The loop [for (const line of lines)] over [content.split('\n')]. *)
Definition parseLines (content : jsstring) : Locals :=
  fold_left parseLine (split LF content) initLocals.

(** [finalModuleId] and [finalCommand] after the [if / else if] that
    determines them; both start out empty. *)
Definition resolveCommand (execCmd moduleId : jsstring)
  : jsstring * jsstring :=
  if includes (str "systemsettings") execCmd then
    match splitWhitespace execCmd with
    | _ :: p1 :: _ => if truthy p1 then (p1, execCmd) else ([], [])
    | _ => ([], [])
    end
  else if truthy moduleId then
    (moduleId, str "kcmshell6 " ++ moduleId)
  else ([], []).

(** What [parseDesktopFile] does with the text it has read. *)
Definition parseContent (content : jsstring) : option KCMModule :=
  let v := parseLines content in
  if negb (truthy (v_name v)) then None
  else
    let '(finalModuleId, finalCommand) :=
      resolveCommand (v_execCommand v) (v_moduleId v) in
    if negb (truthy finalModuleId) then None
    else Some {| id := finalModuleId;
                 name := v_name v;
                 description :=
                   if truthy (v_description v) then v_description v
                   else v_name v;
                 icon :=
                   if truthy (v_icon v) then v_icon v
                   else str "preferences-system";
                 keywords := v_keywords v;
                 execCommand := finalCommand |}.

(** ** The file system, as the code sees it

    [readdirSync] and [readFileSync] either return or throw ([None]). *)
Record FileSystem : Type := {
  existsSync : jsstring -> bool;
  readdirSync : jsstring -> option (list jsstring);
  readFileSync : jsstring -> option jsstring
}.

(** [parseDesktopFile(filePath)]: a failed read is caught, logged and
    gives [null]. *)
Definition parseDesktopFile (fs : FileSystem) (filePath : jsstring)
  : option KCMModule :=
  match readFileSync fs filePath with
  | Some content => parseContent content
  | None => None
  end.

(** ** The descriptor source scanner, [loadKCMModules] *)

(** [path.join(dir, file)] for a directory entry [file] (entries carry no
    separator and are never [.] or [..], so the join is a concatenation). *)
Definition join (dir file : jsstring) : jsstring := dir ++ SLASH :: file.

Definition applicationsDir : jsstring := str "/usr/share/applications".
Definition kservices5Dir : jsstring := str "/usr/share/kservices5".

(** The [Set<string>] named [seen]: [seen.has(x)] and [seen.add(x)]. *)
Definition StringSet : Type := list jsstring.
Definition has (seen : StringSet) (x : jsstring) : bool :=
  existsb (eqb_str x) seen.
Definition add (seen : StringSet) (x : jsstring) : StringSet :=
  if has seen x then seen else x :: seen.

(** The mutable pair [modules], [seen] of [loadKCMModules]. *)
Definition ScanState : Type := (list KCMModule * StringSet)%type.

(** Stable insertion of [x] in front of the first element it does not
    exceed under the comparator. *)
Fixpoint insertSorted (A : Type) (cmp : A -> A -> Z) (x : A) (l : list A)
  : list A :=
  match l with
  | [] => [x]
  | y :: l' =>
      if (cmp x y <=? 0)%Z then x :: l else y :: insertSorted cmp x l'
  end.

(** [Array.prototype.sort(cmp)].  The language fixes it as a stable sort;
    for a consistent comparator the outcome is the one stable ascending
    arrangement (lemma [stable_sorted_unique] below), computed here by
    insertion. *)
Definition sort (A : Type) (cmp : A -> A -> Z) (l : list A) : list A :=
  fold_right (insertSorted cmp) [] l.

Section Scanner.

(** [a.localeCompare(b)] of the runtime: negative, zero or positive. *)
Variable localeCompare : jsstring -> jsstring -> Z.
Variable fs : FileSystem.

(** The two statements shared by both loops: parse the file and keep the
    module when its id has not been seen. *)
Definition visit (dir : jsstring) (st : ScanState) (file : jsstring)
  : ScanState :=
  let '(modules, seen) := st in
  match parseDesktopFile fs (join dir file) with
  | Some module =>
      if negb (has seen (id module))
      then (modules ++ [module], add seen (id module))
      else st
  | None => st
  end.

(** The name test of the first loop. *)
Definition isModernEntry (file : jsstring) : bool :=
  startsWith (str "kcm_") file && endsWith (str ".desktop") file.

(** The name test of the second loop. *)
Definition isLegacyEntry (file : jsstring) : bool :=
  endsWith (str ".desktop") file.

(** One [if (existsSync(dir)) { try { for ... } catch { log } }] block.
    Only [readdirSync] can throw; the state is then left as it was. *)
Definition scanDirectory (dir : jsstring) (accept : jsstring -> bool)
  (st : ScanState) : ScanState :=
  if existsSync fs dir then
    match readdirSync fs dir with
    | Some files =>
        fold_left (fun st file => if accept file then visit dir st file
                                  else st) files st
    | None => st
    end
  else st.

(** [modules] just before the final sort. *)
Definition collectModules : list KCMModule :=
  fst (scanDirectory kservices5Dir isLegacyEntry
         (scanDirectory applicationsDir isModernEntry ([], []))).

(** The comparator handed to [sort]. *)
Definition byName (a b : KCMModule) : Z := localeCompare (name a) (name b).

Definition loadKCMModules : list KCMModule := sort byName collectModules.

End Scanner.

(** ** The search filter, [filteredModules] *)

Section Filter.

(** [s.toLowerCase()] of the runtime. *)
Variable toLowerCase : jsstring -> jsstring.

(** The callback given to [modules.filter]. *)
Definition matchesSearch (searchText : jsstring) (module : KCMModule)
  : bool :=
  if negb (truthy searchText) then true
  else
    let search := toLowerCase searchText in
    let matchesName := includes search (toLowerCase (name module)) in
    let matchesDescription :=
      includes search (toLowerCase (description module)) in
    let matchesKeywords :=
      existsb (fun keyword => includes search (toLowerCase keyword))
              (keywords module) in
    matchesName || matchesDescription || matchesKeywords.

Definition filteredModules (modules : list KCMModule)
  (searchText : jsstring) : list KCMModule :=
  filter (matchesSearch searchText) modules.

End Filter.

(** ** The process and notification boundaries *)

(** How a launch can fail: the process cannot be run, it ends with a
    status other than 0, it is killed by the timeout, or it writes more
    than [exec] buffers. *)
Inductive ExecFailure : Type :=
| ProcessError
| NonZeroExit (status : N)
| TimedOut
| OutputLimitExceeded.

(** A program of the stand-in boundary [quietPrograms] below: the shell
    cannot start it, it exits after [elapsed] milliseconds with [status],
    or it never exits. *)
Inductive Behaviour : Type :=
| FailsToStart
| Exits (elapsed status : N)
| RunsForever.

(** What the host and the console get to see. *)
Inductive Event : Type :=
| Toast (title message : jsstring)
| CloseMainWindow
| ConsoleError (failure : ExecFailure).

(** How an awaited computation ends: it returns, it throws, or its
    promise is never settled. *)
Inductive Completion (A : Type) : Type :=
| Returns (a : A)
| Throws (e : ExecFailure)
| NeverSettles.
Arguments Throws {A} e.
Arguments NeverSettles {A}.

(** An [async] computation: it extends the log of events and completes. *)
Definition Async (A : Type) : Type := list Event -> list Event * Completion A.

Definition bind (A B : Type) (m : Async A) (k : A -> Async B) : Async B :=
  fun log =>
    match m log with
    | (log', Returns a) => k a log'
    | (log', Throws e) => (log', Throws e)
    | (log', NeverSettles) => (log', NeverSettles)
    end.

(** [try { m } catch (error) { handler error }] *)
Definition tryCatch (A : Type) (m : Async A)
  (handler : ExecFailure -> Async A) : Async A :=
  fun log =>
    match m log with
    | (log', Throws e) => handler e log'
    | done => done
    end.

Definition emit (ev : Event) : Async unit :=
  fun log => (log ++ [ev], Returns tt).

Notation "'await' m ';;' k" := (bind m (fun _ => k))
  (at level 61, m at next level, right associativity).

(** Calls into the host and the console are taken to succeed. *)
Definition showToast (title message : jsstring) : Async unit :=
  emit (Toast title message).
Definition closeMainWindow : Async unit := emit CloseMainWindow.
Definition consoleError (error : ExecFailure) : Async unit :=
  emit (ConsoleError error).

(** The process execution boundary.  [world command timeout] is what
    awaiting [promisify(exec)(command, options)] comes to, where [timeout]
    is the [timeout] option of the call and [None] stands for a call
    without options.  What lies behind it (the shell, the exit status,
    output beyond the buffer limit, the signal a timeout sends and what
    the child makes of it) is Node's and the operating system's, and is
    left open: the boundary is a parameter. *)
Definition ProcessBoundary : Type :=
  jsstring -> option N -> Completion unit.

(** [execAsync(command)] and [execAsync(command, { timeout })]. *)
Definition execAsync (world : ProcessBoundary) (command : jsstring)
  (timeout : option N) : Async unit :=
  fun log => (log, world command timeout).

(** The exported invoker of [utils/command-executor.ts]. *)
Module CommandExecutor.
Section Invoker.
Variable world : ProcessBoundary.
(** [error.message] *)
Variable errorMessage : ExecFailure -> jsstring.

Definition openKCMModule (moduleName command : jsstring) : Async unit :=
  tryCatch
    (await showToast (str "Opening " ++ moduleName ++ str "...")
                     (str "Launching KDE System Settings") ;;
     await execAsync world command (Some 20000%N) ;;
     await showToast (str "Success")
                     (moduleName ++ str " opened successfully") ;;
     closeMainWindow)
    (fun error =>
       showToast (str "Error")
                 (str "Failed to open " ++ moduleName ++ str ": "
                  ++ errorMessage error)).

End Invoker.
End CommandExecutor.

(** The invoker the [SearchSettings] command defines for itself and binds
    to its "Open Settings Module" action. *)
Definition openKCMModule (world : ProcessBoundary)
  (command : jsstring) : Async unit :=
  tryCatch (execAsync world command None)
           (fun error => consoleError error).

(** ** Vocabulary of the specification *)

(** [p] is a substring of [s]. *)
Definition Substring (p s : jsstring) : Prop :=
  exists pre post, s = pre ++ p ++ post.

(** [l1] is [l2] with some elements left out, order kept. *)
Inductive Subsequence (A : Type) : list A -> list A -> Prop :=
| Subsequence_nil : Subsequence [] []
| Subsequence_keep : forall x l1 l2,
    Subsequence l1 l2 -> Subsequence (x :: l1) (x :: l2)
| Subsequence_drop : forall x l1 l2,
    Subsequence l1 l2 -> Subsequence l1 (x :: l2).

Definition noWhitespace (s : jsstring) : bool :=
  forallb (fun c => negb (isWhiteSpace c)) s.
Definition allWhitespace (s : jsstring) : bool := forallb isWhiteSpace s.

(** No white space at either end. *)
Definition Trimmed (s : jsstring) : Prop :=
  (forall c r, s = c :: r -> isWhiteSpace c = false) /\
  (forall c r, rev s = c :: r -> isWhiteSpace c = false).

(** [t2] is the second white-space separated token of [s]: [s] is a first
    token, a run of white space, [t2], and then nothing or more white
    space. *)
Definition SecondToken (s t2 : jsstring) : Prop :=
  exists t1 ws rest,
    s = t1 ++ ws ++ t2 ++ rest /\
    t1 <> [] /\ noWhitespace t1 = true /\
    ws <> [] /\ allWhitespace ws = true /\
    t2 <> [] /\ noWhitespace t2 = true /\
    (rest = [] \/ exists c r, rest = c :: r /\ isWhiteSpace c = true).

(** A line assigning the unqualified key [key] (given with its [=]). *)
Definition unqualified (key line : jsstring) : bool :=
  startsWith key line && negb (includes (str "[") line).

(** The last line of the record that passes [sel], if any. *)
Definition lastLine (sel : jsstring -> bool) (content : jsstring)
  : option jsstring :=
  find sel (rev (split LF content)).

(** The trimmed text after the first [n] code units of that line, or the
    empty string when there is no such line. *)
Definition valueOf (sel : jsstring -> bool) (n : nat) (content : jsstring)
  : jsstring :=
  match lastLine sel content with
  | Some line => trim (substring n line)
  | None => []
  end.

(** The resolution rules as claim C1 words them: rule 1 when the Exec
    value contains the launcher token and has a second token; rule 2,
    whenever rule 1 resolved nothing, from a captured [moduleId]. *)
Definition claimedResolution (execCmd moduleId : jsstring)
  : option (jsstring * jsstring) :=
  let rule1 :=
    if includes (str "systemsettings") execCmd then
      match splitWhitespace execCmd with
      | _ :: t2 :: _ => Some (t2, execCmd)
      | _ => None
      end
    else None in
  match rule1 with
  | Some r => Some r
  | None =>
      if truthy moduleId then Some (moduleId, str "kcmshell6 " ++ moduleId)
      else None
  end.

Definition optionToList (A : Type) (o : option A) : list A :=
  match o with Some a => [a] | None => [] end.

(** The well-formed descriptors of one origin, in enumeration order. *)
Definition candidatesOf (fs : FileSystem) (dir : jsstring)
  (accept : jsstring -> bool) : list KCMModule :=
  if existsSync fs dir then
    match readdirSync fs dir with
    | Some files =>
        flat_map (fun file =>
                    if accept file
                    then optionToList (parseDesktopFile fs (join dir file))
                    else []) files
    | None => []
    end
  else [].

Definition modernCandidates (fs : FileSystem) : list KCMModule :=
  candidatesOf fs applicationsDir isModernEntry.
Definition legacyCandidates (fs : FileSystem) : list KCMModule :=
  candidatesOf fs kservices5Dir isLegacyEntry.

(** [m] is the first descriptor of [cands] that carries its id. *)
Definition FirstWithId (cands : list KCMModule) (m : KCMModule) : Prop :=
  exists pre post,
    cands = pre ++ m :: post /\ forall m', In m' pre -> id m' <> id m.

(** The case-insensitive query is a substring of the name, of the
    description, or of at least one keyword. *)
Definition Matches (toLowerCase : jsstring -> jsstring)
  (query : jsstring) (m : KCMModule) : Prop :=
  Substring (toLowerCase query) (toLowerCase (name m)) \/
  Substring (toLowerCase query) (toLowerCase (description m)) \/
  exists keyword,
    In keyword (keywords m) /\
    Substring (toLowerCase query) (toLowerCase keyword).

(** First occurrences: [kept], followed by the descriptors of [cands] in
    order, each one left out when its id is already among those kept. *)
Definition keepFirst (kept cands : list KCMModule) : list KCMModule :=
  fold_left (fun acc m => if has (map id acc) (id m) then acc
                          else acc ++ [m]) cands kept.

(** [seen] holds exactly the ids of [modules]. *)
Definition SeenAgrees (st : ScanState) : Prop :=
  forall x, has (snd st) x = true <-> In x (map id (fst st)).

(** A comparator the language calls consistent: a total preorder whose
    ties are the zero results. *)
Record Consistent (A : Type) (cmp : A -> A -> Z) : Prop := {
  cmp_flip : forall a b, (cmp a b <= 0 <-> 0 <= cmp b a)%Z;
  cmp_trans : forall a b c, (cmp a b <= 0 -> cmp b c <= 0 -> cmp a c <= 0)%Z
}.

(** The elements of [l] that tie with [x], in their order in [l]. *)
Definition ties (A : Type) (cmp : A -> A -> Z) (x : A) (l : list A)
  : list A :=
  filter (fun y => (cmp y x =? 0)%Z) l.

(** [l'] keeps every group of tied elements in the order it has in [l]. *)
Definition StableFor (A : Type) (cmp : A -> A -> Z) (l l' : list A)
  : Prop :=
  forall x, ties cmp x l' = ties cmp x l.

Definition ascending (A : Type) (cmp : A -> A -> Z) (a b : A) : Prop :=
  (cmp a b <= 0)%Z.

(** ** Concrete runtimes and inputs for the examples *)

(** [toLowerCase] on Basic Latin letters; other code units are kept. *)
Definition toLowerCaseBasicLatin (s : jsstring) : jsstring :=
  map (fun c => if (65 <=? c)%N && (c <=? 90)%N then (c + 32)%N else c) s.

(** Comparison by code units, as a stand-in collation: -1, 0 or 1. *)
Fixpoint compareCodeUnits (a b : jsstring) : Z :=
  match a, b with
  | [], [] => 0
  | [], _ :: _ => -1
  | _ :: _, [] => 1
  | x :: a', y :: b' =>
      match N.compare x y with
      | Lt => -1
      | Gt => 1
      | Eq => compareCodeUnits a' b'
      end
  end%Z.

(** A record from its lines. *)
Fixpoint unlines (ls : list jsstring) : jsstring :=
  match ls with
  | [] => []
  | [l] => l
  | l :: ls' => l ++ LF :: unlines ls'
  end.

Definition modernRecord : jsstring :=
  unlines [str "Name=Foo"; str "Exec=systemsettings kcm_foo"].

Definition legacyRecord : jsstring :=
  unlines [str "Name=Bar"; str "X-KDE-Library=kcm_bar"].

Definition bareLauncherRecord : jsstring :=
  unlines [str "Name=Baz"; str "Exec=systemsettings"].

Definition bareLauncherWithLibrary : jsstring :=
  unlines [str "Name=Bar"; str "Exec=systemsettings";
           str "X-KDE-Library=kcm_bar"].

Definition bracketedNameRecord : jsstring :=
  unlines [str "Name=Foo [Beta]"; str "Exec=systemsettings kcm_foo"].

Definition fullRecord : jsstring :=
  unlines [str "[Desktop Entry]"; str "Name=Bluetooth";
           str "Name[de]=Bluetooth-Geraete"; str "Comment=Manage devices";
           str "Icon=preferences-system-bluetooth";
           str "X-KDE-Keywords=wireless, BT";
           str "Exec=systemsettings kcm_bluetooth"].

Definition lookup (A : Type) (k : jsstring) (l : list (jsstring * A))
  : option A :=
  match find (fun kv => eqb_str k (fst kv)) l with
  | Some kv => Some (snd kv)
  | None => None
  end.

(** A file system from its directories and its readable files. *)
Definition fileSystemOf (dirs : list (jsstring * list jsstring))
  (files : list (jsstring * jsstring)) : FileSystem :=
  {| existsSync := fun p =>
       match lookup p dirs with Some _ => true | None => false end;
     readdirSync := fun p => lookup p dirs;
     readFileSync := fun p => lookup p files |}.

(** Both origins describe [kcm_bar]; the legacy origin also has an
    unreadable entry and one that is not a module. *)
Definition sampleFileSystem : FileSystem :=
  fileSystemOf
    [ (applicationsDir,
       [str "kcm_foo.desktop"; str "firefox.desktop"; str "kcm_bar.desktop"]);
      (kservices5Dir,
       [str "bar.desktop"; str "broken.desktop"; str "zed.desktop";
        str "README"]) ]
    [ (join applicationsDir (str "kcm_foo.desktop"), modernRecord);
      (join applicationsDir (str "firefox.desktop"),
       unlines [str "Name=Firefox"; str "Exec=firefox %u"]);
      (join applicationsDir (str "kcm_bar.desktop"),
       unlines [str "Name=Bar Settings"; str "Exec=systemsettings kcm_bar"]);
      (join kservices5Dir (str "bar.desktop"), legacyRecord);
      (join kservices5Dir (str "zed.desktop"),
       unlines [str "Name=Accessibility"; str "X-KDE-Library=kcm_access"]) ].

Definition bluetooth : KCMModule :=
  {| id := str "kcm_bluetooth"; name := str "Bluetooth";
     description := str "Manage devices"; icon := str "bt";
     keywords := [str "wireless"; str "BT"];
     execCommand := str "systemsettings kcm_bluetooth" |}.

Definition display : KCMModule :=
  {| id := str "kcm_kscreen"; name := str "Display";
     description := str "Display"; icon := str "monitor";
     keywords := []; execCommand := str "systemsettings kcm_kscreen" |}.

(** A stand-in boundary for the examples, for programs that write less
    than the buffer limit and die at once when signalled.  Such a program
    is described by its [Behaviour]; a positive limit kills it once it has
    run longer, and the promise is then rejected. *)
Definition quietPrograms (programs : jsstring -> Behaviour)
  : ProcessBoundary :=
  fun command timeout =>
    let limited elapsed :=
      match timeout with
      | Some limit => (0 <? limit)%N && (limit <? elapsed)%N
      | None => false
      end in
    match programs command with
    | FailsToStart => Throws ProcessError
    | Exits elapsed status =>
        if limited elapsed then Throws TimedOut
        else if (status =? 0)%N then Returns tt
        else Throws (NonZeroExit status)
    | RunsForever =>
        match timeout with
        | Some limit => if (0 <? limit)%N then Throws TimedOut
                        else NeverSettles
        | None => NeverSettles
        end
    end.

(** A machine without [kcmshell6] (the shell exits with status 127), on
    which the settings hub stays open until the user closes it, and on
    which every other command exits with status 0 after 100 ms. *)
Definition samplePrograms (command : jsstring) : Behaviour :=
  if eqb_str command (str "kcmshell6 kcm_bar") then Exits 5 127
  else if eqb_str command (str "systemsettings kcm_foo") then RunsForever
  else Exits 100 0.

Definition sampleWorld : ProcessBoundary := quietPrograms samplePrograms.

(** A boundary on which one program exits with status 0 yet is rejected
    for its output, and another never answers, limit or no limit. *)
Definition harshWorld : ProcessBoundary :=
  fun command timeout =>
    if eqb_str command (str "systemsettings kcm_fonts")
    then Throws OutputLimitExceeded
    else if eqb_str command (str "systemsettings kcm_stuck")
    then NeverSettles
    else Returns tt.

Definition sampleMessage (e : ExecFailure) : jsstring :=
  match e with
  | ProcessError => str "spawn failed"
  | NonZeroExit _ => str "Command failed"
  | TimedOut => str "Command timed out"
  | OutputLimitExceeded => str "stdout maxBuffer length exceeded"
  end.

(** ** The rows the [SearchSettings] command renders *)

(** One [<List.Item>]: its React key, title, subtitle, icon and keywords,
    the command its "Open Settings Module" action hands to
    [openKCMModule], and the text its "Copy Module ID" action copies. *)
Record ListItem : Type := {
  item_key : jsstring;
  item_title : jsstring;
  item_subtitle : jsstring;
  item_icon : jsstring;
  item_keywords : list jsstring;
  item_open : jsstring;
  item_copy : jsstring
}.

(** The body of [filteredModules.map(...)]. *)
Definition renderItem (module : KCMModule) : ListItem :=
  {| item_key := id module;
     item_title := name module;
     item_subtitle :=
       if negb (eqb_str (description module) (name module))
       then description module else [];
     item_icon := icon module;
     item_keywords := keywords module;
     item_open := execCommand module;
     item_copy := id module |}.

(** The children of [<List>] for the current [modules] and
    [searchText]. *)
Definition renderList (toLowerCase : jsstring -> jsstring)
  (modules : list KCMModule) (searchText : jsstring) : list ListItem :=
  map renderItem (filteredModules toLowerCase modules searchText).

(** ** Further vocabulary *)

(** The line starts with one of the six keys the parser looks for. *)
Definition recognised (line : jsstring) : bool :=
  startsWith (str "Name=") line
  || startsWith (str "Comment=") line
  || startsWith (str "Icon=") line
  || startsWith (str "X-KDE-Keywords=") line
  || startsWith (str "X-KDE-Library=") line
  || startsWith (str "Exec=") line.

(** The six keys, without the [=]. *)
Definition keyNames : list jsstring :=
  [str "Name"; str "Comment"; str "Icon"; str "X-KDE-Keywords";
   str "X-KDE-Library"; str "Exec"].

(** [line'] is [line] followed by white space only (a carriage return,
    blanks, tabs). *)
Definition Padded (line line' : jsstring) : Prop :=
  exists ws, allWhitespace ws = true /\ line' = line ++ ws.

(** Two file systems that look the same from one origin: the directory
    exists in both or in neither, lists the same entries, and the entries
    the loop accepts read the same. *)
Definition AgreeOn (fs fs' : FileSystem) (dir : jsstring)
  (accept : jsstring -> bool) : Prop :=
  existsSync fs dir = existsSync fs' dir /\
  readdirSync fs dir = readdirSync fs' dir /\
  forall files file,
    readdirSync fs dir = Some files -> In file files ->
    accept file = true ->
    readFileSync fs (join dir file) = readFileSync fs' (join dir file).

(** [m] is what the parser makes of a readable entry of [dir] that the
    loop over [dir] accepts. *)
Definition ParsedFrom (fs : FileSystem) (dir : jsstring)
  (accept : jsstring -> bool) (m : KCMModule) : Prop :=
  existsSync fs dir = true /\
  exists files file content,
    readdirSync fs dir = Some files /\ In file files /\
    accept file = true /\
    readFileSync fs (join dir file) = Some content /\
    parseContent content = Some m.

(** The six tests by which the loop picks the line that sets a
    variable. *)
Definition selectors : list (jsstring -> bool) :=
  [unqualified (str "Name="); unqualified (str "Comment=");
   startsWith (str "Icon="); unqualified (str "X-KDE-Keywords=");
   startsWith (str "X-KDE-Library="); startsWith (str "Exec=")].

(** The listed entry parses to a descriptor. *)
Definition isModule (fs : FileSystem) (dir file : jsstring) : bool :=
  match parseDesktopFile fs (join dir file) with
  | Some _ => true
  | None => false
  end.

(** [fs'] is [fs] with every entry that does not parse to a descriptor
    (unreadable, nameless, without a resolvable command) struck from the
    listings of the two directories. *)
Definition PrunedListings (fs fs' : FileSystem) : Prop :=
  (forall p, existsSync fs' p = existsSync fs p) /\
  (forall p, readFileSync fs' p = readFileSync fs p) /\
  readdirSync fs' applicationsDir =
    option_map (filter (isModule fs applicationsDir))
               (readdirSync fs applicationsDir) /\
  readdirSync fs' kservices5Dir =
    option_map (filter (isModule fs kservices5Dir))
               (readdirSync fs kservices5Dir).

(** More inputs for the examples. *)

Definition CR : N := 13.

(** [fullRecord] with Windows line ends and stray blanks. *)
Definition crlfRecord : jsstring :=
  unlines [str "[Desktop Entry]" ++ [CR]; str "Name=Bluetooth" ++ [CR];
           str "Name[de]=Bluetooth-Geraete" ++ [CR];
           str "Comment=Manage devices  " ++ [CR];
           str "Icon=preferences-system-bluetooth" ++ [CR];
           str "X-KDE-Keywords=wireless, BT" ++ [CR];
           str "Exec=systemsettings kcm_bluetooth" ++ [CR]].

(** [fullRecord] without the lines the parser does not look at. *)
Definition strippedRecord : jsstring :=
  unlines [str "Name=Bluetooth"; str "Comment=Manage devices";
           str "Icon=preferences-system-bluetooth";
           str "X-KDE-Keywords=wireless, BT";
           str "Exec=systemsettings kcm_bluetooth"].

(** A record whose keys occur twice. *)
Definition repeatedKeysRecord : jsstring :=
  unlines [str "Name=First"; str "Exec=systemsettings kcm_first";
           str "X-KDE-Keywords=one,two";
           str "Name=Second"; str "X-KDE-Keywords=three";
           str "Name[fr]=Troisieme"].

(** [sampleFileSystem] with files and directories the scanner has no
    business with. *)
Definition noisyFileSystem : FileSystem :=
  {| existsSync := fun p =>
       existsSync sampleFileSystem p || eqb_str p (str "/etc");
     readdirSync := fun p =>
       if eqb_str p (str "/etc") then Some [str "passwd"]
       else readdirSync sampleFileSystem p;
     readFileSync := fun p =>
       if eqb_str p (str "/etc/passwd") then Some (str "root")
       else if eqb_str p (join applicationsDir (str "firefox.desktop"))
       then None
       else if eqb_str p (join kservices5Dir (str "README"))
       then Some (unlines [str "Name=Readme";
                           str "X-KDE-Library=kcm_readme"])
       else readFileSync sampleFileSystem p |}.

(** [sampleFileSystem] listing only the entries that are modules. *)
Definition prunedFileSystem : FileSystem :=
  {| existsSync := existsSync sampleFileSystem;
     readdirSync := fun p =>
       if eqb_str p applicationsDir
       then Some [str "kcm_foo.desktop"; str "kcm_bar.desktop"]
       else if eqb_str p kservices5Dir
       then Some [str "bar.desktop"; str "zed.desktop"]
       else readdirSync sampleFileSystem p;
     readFileSync := readFileSync sampleFileSystem |}.

(** The lines of [fullRecord] in another order, after earlier
    assignments that are overwritten. *)
Definition reorderedRecord : jsstring :=
  unlines [str "Exec=kcmshell6 old"; str "Name=Old name";
           str "Exec=systemsettings kcm_bluetooth";
           str "X-KDE-Keywords=wireless, BT";
           str "Icon=preferences-system-bluetooth";
           str "Comment=Manage devices"; str "Name=Bluetooth"].

(** A file system with neither directory. *)
Definition emptyFileSystem : FileSystem := fileSystemOf [] [].

(* ================================================================== *)
(** * Part II.  Properties                                             *)
(* ================================================================== *)

Unset Implicit Arguments.

(** ** Strings *)

Lemma eqb_str_eq (a b : jsstring) : eqb_str a b = true <-> a = b.
Proof.
  revert b; induction a as [|x a IH]; intros [|y b]; simpl;
    try (split; [discriminate | discriminate]); try tauto.
  rewrite andb_true_iff, N.eqb_eq, IH.
  split; [intros [-> ->]; reflexivity | intros [= -> ->]; auto].
Qed.

Lemma eqb_str_refl (a : jsstring) : eqb_str a a = true.
Proof. apply eqb_str_eq; reflexivity. Qed.

Lemma eqb_str_neq (a b : jsstring) : eqb_str a b = false <-> a <> b.
Proof.
  rewrite <- eqb_str_eq. destruct (eqb_str a b); split; congruence.
Qed.

Lemma truthy_true (s : jsstring) : truthy s = true <-> s <> [].
Proof. destruct s; simpl; split; congruence. Qed.

Lemma startsWith_prefix (p s : jsstring) :
  startsWith p s = true <-> exists t, s = p ++ t.
Proof.
  revert s; induction p as [|x p IH]; intros s; simpl.
  - split; [intros _; exists s; reflexivity | reflexivity].
  - destruct s as [|y s].
    + split; [discriminate | intros [t Ht]; discriminate].
    + rewrite andb_true_iff, N.eqb_eq, IH. split.
      * intros [-> [t ->]]. exists t; reflexivity.
      * intros [t [= -> ->]]. split; [reflexivity | exists t; reflexivity].
Qed.

Lemma includes_Substring (p s : jsstring) :
  includes p s = true <-> Substring p s.
Proof.
  unfold Substring. induction s as [|c s IH].
  - simpl. rewrite orb_false_r, startsWith_prefix. split.
    + intros [t Ht]. exists [], t. exact Ht.
    + intros [pre [post H]]. symmetry in H.
      apply app_eq_nil in H as [-> H]. apply app_eq_nil in H as [-> ->].
      exists []; reflexivity.
  - simpl. rewrite orb_true_iff, startsWith_prefix, IH. split.
    + intros [[t Ht] | [pre [post H]]].
      * exists [], t. exact Ht.
      * exists (c :: pre), post. simpl. rewrite H. reflexivity.
    + intros [[|d pre] [post H]].
      * left. exists post. exact H.
      * right. injection H as _ H. exists pre, post. exact H.
Qed.

Example isWhiteSpace_samples :
  map isWhiteSpace [9; 10; 13; 32; 160; 8192; 8202; 8203; 65; 91]%N =
  [true; true; true; true; true; true; true; false; false; false].
Proof. reflexivity. Qed.

Example trim_sample : trim (str "  a b  ") = str "a b".
Proof. reflexivity. Qed.

Example split_samples :
  split COMMA (str "a,,b,") = [str "a"; []; str "b"; []] /\
  split COMMA [] = [[]] /\
  splitWhitespace (str "a  b c") = [str "a"; str "b"; str "c"] /\
  splitWhitespace (str " a ") = [[]; str "a"; []] /\
  splitWhitespace [] = [[]].
Proof. repeat split. Qed.

Example parseKeywords_sample :
  parseKeywords (str "wireless, BT,, ") = [str "wireless"; str "BT"].
Proof. reflexivity. Qed.

(** *** Trimming *)

Lemma dropWhile_head (f : N -> bool) (s : jsstring) (c : N) (r : jsstring) :
  dropWhile f s = c :: r -> f c = false.
Proof.
  induction s as [|d s IH]; simpl; [discriminate|].
  destruct (f d) eqn:E; [exact IH|]. intros [= <- _]. exact E.
Qed.

Lemma dropWhile_split (f : N -> bool) (s : jsstring) :
  exists w, s = w ++ dropWhile f s /\ forallb f w = true.
Proof.
  induction s as [|d s [w [Hs Hw]]]; simpl.
  - exists []; auto.
  - destruct (f d) eqn:E.
    + exists (d :: w). simpl. rewrite E, Hw, <- Hs. auto.
    + exists []. auto.
Qed.

Lemma trim_Trimmed (s : jsstring) : Trimmed (trim s).
Proof.
  unfold trim, Trimmed.
  set (u := dropWhile isWhiteSpace s).
  destruct (dropWhile_split isWhiteSpace (rev u)) as [w [Hu _]].
  set (v := dropWhile isWhiteSpace (rev u)) in *.
  assert (Hu' : u = rev v ++ rev w).
  { rewrite <- rev_app_distr, <- Hu, rev_involutive. reflexivity. }
  split; intros c r H.
  - rewrite H in Hu'. simpl in Hu'.
    exact (dropWhile_head isWhiteSpace s c _ Hu').
  - rewrite rev_involutive in H.
    exact (dropWhile_head isWhiteSpace (rev u) c r H).
Qed.

Lemma Trimmed_nil : Trimmed [].
Proof. split; intros c r H; discriminate. Qed.

(** *** Splitting on white space *)

Lemma splitWhitespace_nonempty (s : jsstring) : splitWhitespace s <> [].
Proof.
  induction s as [|c s IH]; simpl; [discriminate|].
  destruct (isWhiteSpace c).
  - destruct s as [|c' s']; [discriminate|].
    destruct (isWhiteSpace c'); [exact IH | discriminate].
  - destruct (splitWhitespace s); discriminate.
Qed.

Lemma splitWhitespace_token (t r : jsstring) :
  noWhitespace t = true ->
  splitWhitespace (t ++ r) =
  (t ++ hd [] (splitWhitespace r)) :: tl (splitWhitespace r).
Proof.
  induction t as [|c t IH]; simpl; intros H.
  - pose proof (splitWhitespace_nonempty r).
    destruct (splitWhitespace r); [congruence | reflexivity].
  - apply andb_true_iff in H as [Hc Ht]. apply negb_true_iff in Hc.
    rewrite Hc, (IH Ht). reflexivity.
Qed.

Lemma splitWhitespace_after_space (c : N) (r : jsstring) :
  isWhiteSpace c = true -> hd [] (splitWhitespace (c :: r)) = [].
Proof.
  revert c; induction r as [|c' r IH]; intros c Hc; simpl; rewrite Hc.
  - reflexivity.
  - destruct (isWhiteSpace c') eqn:E; [|reflexivity].
    specialize (IH c' E). simpl in IH. rewrite E in IH. exact IH.
Qed.

Lemma splitWhitespace_skip (c c' : N) (s : jsstring) :
  isWhiteSpace c = true -> isWhiteSpace c' = true ->
  splitWhitespace (c :: c' :: s) = splitWhitespace (c' :: s).
Proof. intros Hc Hc'. simpl. rewrite Hc, Hc'. reflexivity. Qed.

Lemma splitWhitespace_run (ws r : jsstring) :
  ws <> [] -> allWhitespace ws = true ->
  (r = [] \/ exists c r', r = c :: r' /\ isWhiteSpace c = false) ->
  splitWhitespace (ws ++ r) = [] :: splitWhitespace r.
Proof.
  intros Hne Hws Hr. induction ws as [|c ws IH]; [congruence|].
  simpl in Hws. apply andb_true_iff in Hws as [Hc Hws].
  destruct ws as [|c2 ws].
  - simpl. rewrite Hc. destruct Hr as [-> | [d [r' [-> Hd]]]].
    + reflexivity.
    + rewrite Hd. reflexivity.
  - change ((c :: c2 :: ws) ++ r) with (c :: (c2 :: ws) ++ r).
    assert (Hc2 : isWhiteSpace c2 = true).
    { simpl in Hws. apply andb_true_iff in Hws. tauto. }
    change ((c2 :: ws) ++ r) with (c2 :: ws ++ r).
    rewrite (splitWhitespace_skip c c2 (ws ++ r) Hc Hc2).
    apply IH; [discriminate | exact Hws].
Qed.

Lemma splitWhitespace_single (t : jsstring) :
  noWhitespace t = true -> splitWhitespace t = [t].
Proof.
  intros H. rewrite <- (app_nil_r t) at 1.
  rewrite (splitWhitespace_token t [] H). simpl. rewrite app_nil_r.
  reflexivity.
Qed.

Lemma splitWhitespace_second (s t2 : jsstring) :
  SecondToken s t2 ->
  exists t1 more, splitWhitespace s = t1 :: t2 :: more.
Proof.
  intros (t1 & ws & rest & -> & Ht1 & Hn1 & Hws & Haws & Ht2 & Hn2 & Hrest).
  exists t1, (tl (splitWhitespace rest)).
  rewrite (splitWhitespace_token t1 _ Hn1).
  rewrite (splitWhitespace_run ws (t2 ++ rest) Hws Haws).
  - assert (Hhd : hd [] (splitWhitespace rest) = []).
    { destruct Hrest as [-> | [c [r [-> Hc]]]];
        [reflexivity | exact (splitWhitespace_after_space c r Hc)]. }
    simpl. rewrite (splitWhitespace_token t2 rest Hn2), Hhd.
    rewrite !app_nil_r. reflexivity.
  - right. destruct t2 as [|c t2]; [congruence|].
    exists c, (t2 ++ rest). split; [reflexivity|].
    simpl in Hn2. apply andb_true_iff in Hn2 as [Hc _].
    apply negb_true_iff in Hc. exact Hc.
Qed.

Lemma span (f : N -> bool) (s : jsstring) :
  exists t r, s = t ++ r /\ forallb f t = true /\
              (r = [] \/ exists c r', r = c :: r' /\ f c = false).
Proof.
  destruct (dropWhile_split f s) as [w [Hs Hw]].
  exists w, (dropWhile f s). repeat split; auto.
  destruct (dropWhile f s) as [|c r'] eqn:E; [left; reflexivity|].
  right. exists c, r'. split; [reflexivity|].
  exact (dropWhile_head f s c r' E).
Qed.

(** A trimmed, non-empty string is one token or has a second token. *)
Lemma tokens_of_trimmed (s : jsstring) :
  Trimmed s -> s <> [] ->
  noWhitespace s = true \/ exists t2, SecondToken s t2.
Proof.
  intros [Hfirst Hlast] Hne.
  destruct (span (fun c => negb (isWhiteSpace c)) s)
    as (t1 & r1 & Hs & Hn1 & [-> | (c & r1' & -> & Hc)]).
  { left. rewrite app_nil_r in Hs. subst. exact Hn1. }
  right. apply negb_false_iff in Hc.
  assert (Ht1 : t1 <> []).
  { intros ->. simpl in Hs. rewrite (Hfirst c r1' Hs) in Hc. discriminate. }
  destruct (span isWhiteSpace (c :: r1')) as (ws & r2 & Hr & Haws & Hr2).
  assert (Hws : ws <> []).
  { intros ->. simpl in Hr. subst r2.
    destruct Hr2 as [H | (d & r' & [= <- <-] & Hd)]; congruence. }
  destruct Hr2 as [-> | (c2 & r2' & -> & Hc2)].
  { exfalso. rewrite app_nil_r in Hr. rewrite Hr in Hs.
    destruct (exists_last Hws) as (ws' & d & Hd).
    assert (Hdws : isWhiteSpace d = true).
    { rewrite Hd in Haws. unfold allWhitespace in Haws.
      rewrite forallb_app in Haws. simpl in Haws.
      apply andb_true_iff in Haws as [_ H]. rewrite andb_true_r in H.
      exact H. }
    rewrite (Hlast d (rev ws' ++ rev t1)) in Hdws; [discriminate|].
    rewrite Hs, Hd, !rev_app_distr. reflexivity. }
  destruct (span (fun c => negb (isWhiteSpace c)) (c2 :: r2'))
    as (t2 & rest & Hr' & Hn2 & Hrest).
  assert (Ht2 : t2 <> []).
  { intros ->. simpl in Hr'. subst rest.
    destruct Hrest as [H | (d & r' & [= <- <-] & Hd)]; [discriminate|].
    apply negb_false_iff in Hd. congruence. }
  exists t2, t1, ws, rest. repeat split; auto.
  - rewrite Hs, Hr, Hr'. reflexivity.
  - destruct Hrest as [-> | (d & r' & -> & Hd)]; [left; reflexivity|].
    right. exists d, r'. split; [reflexivity|].
    apply negb_false_iff in Hd. exact Hd.
Qed.

Lemma noWhitespace_no_second (s t2 : jsstring) :
  noWhitespace s = true -> ~ SecondToken s t2.
Proof.
  intros H (t1 & ws & rest & -> & _ & _ & Hws & Haws & _).
  unfold noWhitespace in H. rewrite !forallb_app in H.
  apply andb_true_iff in H as [_ H]. apply andb_true_iff in H as [H _].
  destruct ws as [|c ws]; [congruence|]. simpl in H, Haws.
  apply andb_true_iff in H as [H _]. apply andb_true_iff in Haws as [Hc _].
  rewrite Hc in H. discriminate.
Qed.

Lemma SecondToken_unique (s t2 t2' : jsstring) :
  SecondToken s t2 -> SecondToken s t2' -> t2 = t2'.
Proof.
  intros H H'.
  destruct (splitWhitespace_second s t2 H) as (t1 & more & E).
  destruct (splitWhitespace_second s t2' H') as (t1' & more' & E').
  congruence.
Qed.

(** ** The resolution of the identifier and the launch command *)

Lemma resolve_modern (e m t2 : jsstring) :
  includes (str "systemsettings") e = true -> SecondToken e t2 ->
  resolveCommand e m = (t2, e).
Proof.
  intros Hinc Hsec. unfold resolveCommand. rewrite Hinc.
  destruct (splitWhitespace_second e t2 Hsec) as (t1 & more & ->).
  destruct Hsec as (_ & _ & _ & _ & _ & _ & _ & _ & Ht2 & _).
  apply truthy_true in Ht2. rewrite Ht2. reflexivity.
Qed.

Lemma resolve_bare (e m : jsstring) :
  includes (str "systemsettings") e = true -> noWhitespace e = true ->
  resolveCommand e m = ([], []).
Proof.
  intros Hinc Hno. unfold resolveCommand.
  rewrite Hinc, (splitWhitespace_single e Hno). reflexivity.
Qed.

Lemma resolve_legacy (e m : jsstring) :
  includes (str "systemsettings") e = false -> m <> [] ->
  resolveCommand e m = (m, str "kcmshell6 " ++ m).
Proof.
  intros Hinc Hm. unfold resolveCommand. rewrite Hinc.
  apply truthy_true in Hm. rewrite Hm. reflexivity.
Qed.

Lemma resolve_nothing (e : jsstring) :
  includes (str "systemsettings") e = false ->
  resolveCommand e [] = ([], []).
Proof. intros Hinc. unfold resolveCommand. rewrite Hinc. reflexivity. Qed.

(** ** The loop over the lines *)

Lemma fold_left_invariant (A B : Type) (P : A -> Prop) (f : A -> B -> A)
  (l : list B) (a : A) :
  P a -> (forall x b, P x -> P (f x b)) -> P (fold_left f l a).
Proof.
  intros Ha Hstep. revert a Ha.
  induction l as [|b l IH]; simpl; intros a Ha; auto.
Qed.

Ltac parseLine_cases line :=
  unfold parseLine;
  destruct (startsWith (str "Name=") line && negb (includes (str "[") line))
    eqn:?;
  [|destruct (startsWith (str "Comment=") line
              && negb (includes (str "[") line)) eqn:?;
    [|destruct (startsWith (str "Icon=") line) eqn:?;
      [|destruct (startsWith (str "X-KDE-Keywords=") line
                  && negb (includes (str "[") line)) eqn:?;
        [|destruct (startsWith (str "X-KDE-Library=") line) eqn:?;
          [|destruct (startsWith (str "Exec=") line) eqn:?]]]]].

Lemma parseLine_exec_Trimmed (v : Locals) (line : jsstring) :
  Trimmed (v_execCommand v) -> Trimmed (v_execCommand (parseLine v line)).
Proof.
  intros H. parseLine_cases line; simpl; auto using trim_Trimmed.
Qed.

Lemma parseLines_exec_Trimmed (content : jsstring) :
  Trimmed (v_execCommand (parseLines content)).
Proof.
  unfold parseLines.
  apply (fold_left_invariant _ _ (fun v => Trimmed (v_execCommand v))).
  - apply Trimmed_nil.
  - intros v line. apply parseLine_exec_Trimmed.
Qed.

(** The two ways in which the parser gives up, and its one result. *)
Lemma parseContent_no_name (content : jsstring) :
  v_name (parseLines content) = [] -> parseContent content = None.
Proof. intros H. unfold parseContent. rewrite H. reflexivity. Qed.

Lemma parseContent_unresolved (content : jsstring) :
  fst (resolveCommand (v_execCommand (parseLines content))
                      (v_moduleId (parseLines content))) = [] ->
  parseContent content = None.
Proof.
  intros H. unfold parseContent.
  destruct (truthy (v_name (parseLines content))); [|reflexivity]. simpl.
  destruct (resolveCommand _ _) as [i c]. simpl in H. subst i. reflexivity.
Qed.

Lemma parseContent_resolved (content i c : jsstring) :
  let v := parseLines content in
  v_name v <> [] -> i <> [] ->
  resolveCommand (v_execCommand v) (v_moduleId v) = (i, c) ->
  parseContent content =
  Some {| id := i; name := v_name v;
          description := if truthy (v_description v) then v_description v
                         else v_name v;
          icon := if truthy (v_icon v) then v_icon v
                  else str "preferences-system";
          keywords := v_keywords v;
          execCommand := c |}.
Proof.
  intros v Hn Hi Hr. unfold parseContent. fold v.
  apply truthy_true in Hn. apply truthy_true in Hi.
  rewrite Hn, Hr. simpl. rewrite Hi. reflexivity.
Qed.

(** *** Which line sets which variable *)

Ltac split_conds :=
  repeat match goal with
         | H : _ && _ = true |- _ =>
             apply andb_true_iff in H; destruct H
         end.

(** No line starts with two different keys. *)
Ltac key_clash :=
  match goal with
  | H1 : startsWith (str ?k1) ?l = true,
    H2 : startsWith (str ?k2) ?l = true |- _ =>
      apply startsWith_prefix in H1; destruct H1 as [? ->];
      cbv in H2; discriminate H2
  end.

Ltac line_sets :=
  let v := fresh "v" in
  let line := fresh "line" in
  let H := fresh "H" in
  intros v line H; unfold unqualified in H;
  parseLine_cases line; simpl; try reflexivity; try congruence;
  exfalso; split_conds; key_clash.

Ltac line_keeps :=
  let v := fresh "v" in
  let line := fresh "line" in
  let H := fresh "H" in
  intros v line H; unfold unqualified in H;
  parseLine_cases line; simpl; try reflexivity; congruence.

Lemma name_set : forall v line,
  unqualified (str "Name=") line = true ->
  v_name (parseLine v line) = trim (substring 5 line).
Proof. line_sets. Qed.

Lemma name_kept : forall v line,
  unqualified (str "Name=") line = false ->
  v_name (parseLine v line) = v_name v.
Proof. line_keeps. Qed.

Lemma description_set : forall v line,
  unqualified (str "Comment=") line = true ->
  v_description (parseLine v line) = trim (substring 8 line).
Proof. line_sets. Qed.

Lemma description_kept : forall v line,
  unqualified (str "Comment=") line = false ->
  v_description (parseLine v line) = v_description v.
Proof. line_keeps. Qed.

Lemma icon_set : forall v line,
  startsWith (str "Icon=") line = true ->
  v_icon (parseLine v line) = trim (substring 5 line).
Proof. line_sets. Qed.

Lemma icon_kept : forall v line,
  startsWith (str "Icon=") line = false ->
  v_icon (parseLine v line) = v_icon v.
Proof. line_keeps. Qed.

Lemma keywords_set : forall v line,
  unqualified (str "X-KDE-Keywords=") line = true ->
  v_keywords (parseLine v line) = parseKeywords (trim (substring 15 line)).
Proof. line_sets. Qed.

Lemma keywords_kept : forall v line,
  unqualified (str "X-KDE-Keywords=") line = false ->
  v_keywords (parseLine v line) = v_keywords v.
Proof. line_keeps. Qed.

Lemma moduleId_set : forall v line,
  startsWith (str "X-KDE-Library=") line = true ->
  v_moduleId (parseLine v line) = trim (substring 14 line).
Proof. line_sets. Qed.

Lemma moduleId_kept : forall v line,
  startsWith (str "X-KDE-Library=") line = false ->
  v_moduleId (parseLine v line) = v_moduleId v.
Proof. line_keeps. Qed.

Lemma execCommand_set : forall v line,
  startsWith (str "Exec=") line = true ->
  v_execCommand (parseLine v line) = trim (substring 5 line).
Proof. line_sets. Qed.

Lemma execCommand_kept : forall v line,
  startsWith (str "Exec=") line = false ->
  v_execCommand (parseLine v line) = v_execCommand v.
Proof. line_keeps. Qed.

(** Later lines overwrite earlier ones: a variable ends up with the value
    of the last line that sets it. *)
Lemma last_line_wins (X : Type) (field : Locals -> X)
  (sel : jsstring -> bool) (val : jsstring -> X) :
  (forall v line, sel line = true -> field (parseLine v line) = val line) ->
  (forall v line, sel line = false -> field (parseLine v line) = field v) ->
  forall lines init,
    field (fold_left parseLine lines init) =
    match find sel (rev lines) with
    | Some line => val line
    | None => field init
    end.
Proof.
  intros Hset Hkeep lines init.
  induction lines as [|line lines IH] using rev_ind; [reflexivity|].
  rewrite fold_left_app, rev_app_distr. simpl.
  destruct (sel line) eqn:E.
  - apply Hset, E.
  - rewrite (Hkeep _ _ E). exact IH.
Qed.

Lemma extracted_name (content : jsstring) :
  v_name (parseLines content) = valueOf (unqualified (str "Name=")) 5 content.
Proof.
  unfold parseLines, valueOf, lastLine.
  rewrite (last_line_wins _ v_name (unqualified (str "Name="))
             (fun l => trim (substring 5 l)) name_set name_kept).
  reflexivity.
Qed.

Lemma extracted_description (content : jsstring) :
  v_description (parseLines content) =
  valueOf (unqualified (str "Comment=")) 8 content.
Proof.
  unfold parseLines, valueOf, lastLine.
  rewrite (last_line_wins _ v_description (unqualified (str "Comment="))
             (fun l => trim (substring 8 l))
             description_set description_kept).
  reflexivity.
Qed.

Lemma extracted_icon (content : jsstring) :
  v_icon (parseLines content) = valueOf (startsWith (str "Icon=")) 5 content.
Proof.
  unfold parseLines, valueOf, lastLine.
  rewrite (last_line_wins _ v_icon (startsWith (str "Icon="))
             (fun l => trim (substring 5 l)) icon_set icon_kept).
  reflexivity.
Qed.

Lemma extracted_moduleId (content : jsstring) :
  v_moduleId (parseLines content) =
  valueOf (startsWith (str "X-KDE-Library=")) 14 content.
Proof.
  unfold parseLines, valueOf, lastLine.
  rewrite (last_line_wins _ v_moduleId (startsWith (str "X-KDE-Library="))
             (fun l => trim (substring 14 l)) moduleId_set moduleId_kept).
  reflexivity.
Qed.

Lemma extracted_execCommand (content : jsstring) :
  v_execCommand (parseLines content) =
  valueOf (startsWith (str "Exec=")) 5 content.
Proof.
  unfold parseLines, valueOf, lastLine.
  rewrite (last_line_wins _ v_execCommand (startsWith (str "Exec="))
             (fun l => trim (substring 5 l))
             execCommand_set execCommand_kept).
  reflexivity.
Qed.

Lemma find_none_of (A : Type) (f : A -> bool) (l : list A) :
  (forall x, In x l -> f x = false) -> find f l = None.
Proof.
  induction l as [|a l IH]; simpl; intros H; [reflexivity|].
  rewrite (H a (or_introl eq_refl)). apply IH. intros x Hx. apply H. auto.
Qed.

Lemma valueOf_no_line (sel : jsstring -> bool) (n : nat)
  (content : jsstring) :
  (forall line, In line (split LF content) -> sel line = false) ->
  valueOf sel n content = [].
Proof.
  intros H. unfold valueOf, lastLine. rewrite find_none_of; [reflexivity|].
  intros x Hx. apply H. apply in_rev. exact Hx.
Qed.

(** ** The parser's result *)

Lemma parseContent_Some_inv (content : jsstring) (m : KCMModule) :
  parseContent content = Some m ->
  let v := parseLines content in
  v_name v <> [] /\
  id m <> [] /\
  (id m, execCommand m) = resolveCommand (v_execCommand v) (v_moduleId v) /\
  name m = v_name v /\
  description m = (if truthy (v_description v) then v_description v
                   else v_name v) /\
  icon m = (if truthy (v_icon v) then v_icon v
            else str "preferences-system") /\
  keywords m = v_keywords v.
Proof.
  intros H v. unfold parseContent in H. fold v in H.
  destruct (truthy (v_name v)) eqn:Hn; [|discriminate]. simpl in H.
  destruct (resolveCommand (v_execCommand v) (v_moduleId v)) as [i c].
  destruct (truthy i) eqn:Hi; [|discriminate]. simpl in H.
  injection H as <-. simpl.
  apply truthy_true in Hn. apply truthy_true in Hi. repeat split; auto.
Qed.

Lemma token_not_in_empty : includes (str "systemsettings") [] = false.
Proof. reflexivity. Qed.

(** The parser gives up on the identifier when the rules as the claims
    word them resolve nothing, and also when the Exec value holds the
    launcher token and is a single token. *)
Lemma unresolved_iff (e mid : jsstring) :
  Trimmed e ->
  (fst (resolveCommand e mid) = [] <->
   claimedResolution e mid = None \/
   (includes (str "systemsettings") e = true /\ noWhitespace e = true)).
Proof.
  intros Htrim.
  destruct (includes (str "systemsettings") e) eqn:Hinc.
  - assert (He : e <> []).
    { intros ->. rewrite token_not_in_empty in Hinc. discriminate. }
    destruct (tokens_of_trimmed e Htrim He) as [Hno | [t2 Hsec]].
    + rewrite (resolve_bare e mid Hinc Hno). simpl.
      split; [intros _; right; split; [reflexivity | exact Hno]
             | reflexivity].
    + rewrite (resolve_modern e mid t2 Hinc Hsec). simpl.
      pose proof Hsec as (_ & _ & _ & _ & _ & _ & _ & _ & Ht2 & _).
      split; [intros E; contradiction|].
      intros [Hc | [_ Hno]].
      * exfalso. unfold claimedResolution in Hc. rewrite Hinc in Hc.
        destruct (splitWhitespace_second e t2 Hsec) as (t1 & more & Es).
        rewrite Es in Hc. discriminate.
      * exfalso. exact (noWhitespace_no_second e t2 Hno Hsec).
  - destruct mid as [|c mid].
    + rewrite (resolve_nothing e Hinc). simpl.
      split; [intros _; left | reflexivity].
      unfold claimedResolution. rewrite Hinc. reflexivity.
    + rewrite (resolve_legacy e (c :: mid) Hinc) by discriminate. simpl.
      split; [discriminate|].
      intros [Hc | [H _]]; [|discriminate].
      unfold claimedResolution in Hc. rewrite Hinc in Hc. discriminate.
Qed.

Lemma parseContent_None_iff (content : jsstring) :
  parseContent content = None <->
  v_name (parseLines content) = [] \/
  fst (resolveCommand (v_execCommand (parseLines content))
                      (v_moduleId (parseLines content))) = [].
Proof.
  split.
  - intros Hnone.
    destruct (v_name (parseLines content)) as [|c n] eqn:Hn;
      [left; reflexivity|].
    right.
    destruct (resolveCommand (v_execCommand (parseLines content))
                             (v_moduleId (parseLines content)))
      as [i cmd] eqn:Hrc.
    destruct i as [|d i]; [reflexivity|]. exfalso.
    assert (Hname : v_name (parseLines content) <> [])
      by (rewrite Hn; discriminate).
    assert (Hi : d :: i <> []) by discriminate.
    rewrite (parseContent_resolved content (d :: i) cmd Hname Hi Hrc)
      in Hnone.
    discriminate.
  - intros [Hn | Hr].
    + exact (parseContent_no_name content Hn).
    + exact (parseContent_unresolved content Hr).
Qed.

Lemma parseDesktopFile_readable (fs : FileSystem)
  (filePath content : jsstring) :
  readFileSync fs filePath = Some content ->
  parseDesktopFile fs filePath = parseContent content.
Proof. intros H. unfold parseDesktopFile. rewrite H. reflexivity. Qed.

Lemma parseDesktopFile_unreadable (fs : FileSystem) (filePath : jsstring) :
  readFileSync fs filePath = None -> parseDesktopFile fs filePath = None.
Proof. intros H. unfold parseDesktopFile. rewrite H. reflexivity. Qed.

(** C1, as the claim words it, fails: the record
    [Name=Bar / Exec=systemsettings / X-KDE-Library=kcm_bar] has an Exec
    value with the launcher token and no second token, and a captured
    [moduleId].  Rule 2 "whenever rule 1 did not resolve an identifier"
    would give id [kcm_bar] and command [kcmshell6 kcm_bar]; the parser
    gives absent. *)
Lemma C1_fallback_counterexample :
  v_name (parseLines bareLauncherWithLibrary) = str "Bar" /\
  v_execCommand (parseLines bareLauncherWithLibrary) = str "systemsettings" /\
  includes (str "systemsettings")
           (v_execCommand (parseLines bareLauncherWithLibrary)) = true /\
  splitWhitespace (v_execCommand (parseLines bareLauncherWithLibrary))
    = [str "systemsettings"] /\
  v_moduleId (parseLines bareLauncherWithLibrary) = str "kcm_bar" /\
  claimedResolution (v_execCommand (parseLines bareLauncherWithLibrary))
                    (v_moduleId (parseLines bareLauncherWithLibrary))
    = Some (str "kcm_bar", str "kcmshell6 kcm_bar") /\
  parseContent bareLauncherWithLibrary = None.
Proof. vm_compute. repeat split. Qed.

(** C1 (amended): for every record with a name, the identifier is resolved
    by the ordered rules as the parser applies them.  When the extracted
    Exec value contains [systemsettings], it is split on white space: with
    a second token, that token is the id and the whole Exec value is the
    launch command; with a single token the record is absent, whether or
    not a [moduleId] was captured.  When the Exec value does not contain
    [systemsettings] and a [moduleId] was captured, the id is that value
    and the launch command is [kcmshell6 <moduleId>]; with no [moduleId]
    the record is absent. *)
Theorem C1_resolution_rules (content : jsstring) :
  v_name (parseLines content) <> [] ->
  (includes (str "systemsettings") (v_execCommand (parseLines content)) = true ->
   (exists t2 m,
       SecondToken (v_execCommand (parseLines content)) t2 /\
       parseContent content = Some m /\
       id m = t2 /\
       execCommand m = v_execCommand (parseLines content)) \/
   (noWhitespace (v_execCommand (parseLines content)) = true /\
    parseContent content = None)) /\
  (includes (str "systemsettings") (v_execCommand (parseLines content)) = false ->
   v_moduleId (parseLines content) <> [] ->
   exists m,
     parseContent content = Some m /\
     id m = v_moduleId (parseLines content) /\
     execCommand m = str "kcmshell6 " ++ v_moduleId (parseLines content)) /\
  (includes (str "systemsettings") (v_execCommand (parseLines content)) = false ->
   v_moduleId (parseLines content) = [] ->
   parseContent content = None).
Proof.
  intros Hname.
  set (e := v_execCommand (parseLines content)).
  set (mid := v_moduleId (parseLines content)).
  split; [|split].
  - intros Hinc.
    assert (He : e <> []).
    { intros E. rewrite E, token_not_in_empty in Hinc. discriminate. }
    destruct (tokens_of_trimmed e (parseLines_exec_Trimmed content) He)
      as [Hno | [t2 Hsec]].
    + right. split; [exact Hno|].
      apply parseContent_unresolved. fold e mid.
      rewrite (resolve_bare e mid Hinc Hno). reflexivity.
    + left. eexists t2, _. split; [exact Hsec|].
      assert (Ht2 : t2 <> []).
      { destruct Hsec as (_ & _ & _ & _ & _ & _ & _ & _ & H & _). exact H. }
      split.
      { exact (parseContent_resolved content t2 e Hname Ht2
                 (resolve_modern e mid t2 Hinc Hsec)). }
      split; reflexivity.
  - intros Hinc Hmid. eexists. split.
    { exact (parseContent_resolved content mid _ Hname Hmid
               (resolve_legacy e mid Hinc Hmid)). }
    split; reflexivity.
  - intros Hinc Hmid. apply parseContent_unresolved. fold e mid.
    rewrite Hmid. rewrite (resolve_nothing e Hinc). reflexivity.
Qed.

Lemma C1_resolution_rules_witness :
  v_name (parseLines legacyRecord) <> [] /\
  exists m, parseContent legacyRecord = Some m /\
            id m = str "kcm_bar" /\
            execCommand m = str "kcmshell6 kcm_bar".
Proof.
  assert (Hname : v_name (parseLines legacyRecord) <> [])
    by (vm_compute; discriminate).
  split; [exact Hname|].
  destruct (C1_resolution_rules legacyRecord Hname) as (_ & Hlegacy & _).
  apply Hlegacy; [reflexivity | vm_compute; discriminate].
Defined.

(** C2: the two example records of the specification parse to the
    descriptors it gives (with the defaults for the fields it leaves
    out). *)
Theorem C2_example_records :
  parseContent modernRecord =
    Some {| id := str "kcm_foo"; name := str "Foo";
            description := str "Foo"; icon := str "preferences-system";
            keywords := [];
            execCommand := str "systemsettings kcm_foo" |} /\
  parseContent legacyRecord =
    Some {| id := str "kcm_bar"; name := str "Bar";
            description := str "Bar"; icon := str "preferences-system";
            keywords := [];
            execCommand := str "kcmshell6 kcm_bar" |}.
Proof. split; vm_compute; reflexivity. Qed.

(** C3, as the claim words it, fails once rules 1-2 are read as the
    claims word them (rule 2 whenever rule 1 resolved nothing): the
    record [Name=Bar / Exec=systemsettings / X-KDE-Library=kcm_bar] is
    absent although its name is not empty and rule 2 resolves
    [kcm_bar]. *)
Lemma C3_exactly_when_counterexample :
  ~ (parseContent bareLauncherWithLibrary = None <->
     v_name (parseLines bareLauncherWithLibrary) = [] \/
     claimedResolution
       (v_execCommand (parseLines bareLauncherWithLibrary))
       (v_moduleId (parseLines bareLauncherWithLibrary)) = None).
Proof.
  intros [Hto _].
  assert (Habsent : parseContent bareLauncherWithLibrary = None)
    by reflexivity.
  destruct (Hto Habsent) as [E | E]; vm_compute in E; discriminate.
Qed.

(** C3 (amended): the parser yields absent exactly when the extracted
    name is empty, or rules 1-2 resolve no identifier, or the Exec value
    contains [systemsettings] and is a single token (whether or not a
    legacy library field is present).  A record with no unqualified
    [Name=] line is absent whatever else it holds, and a record whose
    Exec value is the bare [systemsettings] is absent with or without an
    [X-KDE-Library=] line. *)
Theorem C3_absent_exactly_when (content : jsstring) :
  (parseContent content = None <->
   v_name (parseLines content) = [] \/
   claimedResolution (v_execCommand (parseLines content))
                     (v_moduleId (parseLines content)) = None \/
   (includes (str "systemsettings") (v_execCommand (parseLines content))
    = true /\
    noWhitespace (v_execCommand (parseLines content)) = true)) /\
  ((forall line, In line (split LF content) ->
                 unqualified (str "Name=") line = false) ->
   parseContent content = None) /\
  (v_execCommand (parseLines content) = str "systemsettings" ->
   parseContent content = None).
Proof.
  pose proof (unresolved_iff
                (v_execCommand (parseLines content))
                (v_moduleId (parseLines content))
                (parseLines_exec_Trimmed content)) as Hres.
  split; [|split].
  - rewrite parseContent_None_iff, Hres. reflexivity.
  - intros Hlines. apply parseContent_no_name.
    rewrite extracted_name. apply valueOf_no_line. exact Hlines.
  - intros Hexec. apply parseContent_unresolved, Hres. right.
    rewrite Hexec. split; reflexivity.
Qed.

Lemma C3_absent_exactly_when_witness :
  v_execCommand (parseLines bareLauncherWithLibrary)
  = str "systemsettings" /\
  (forall line, In line (split LF (unlines [str "Exec=systemsettings"]))
                -> unqualified (str "Name=") line = false) /\
  parseContent bareLauncherWithLibrary = None /\
  parseContent (unlines [str "Exec=systemsettings"]) = None.
Proof.
  assert (Hexec : v_execCommand (parseLines bareLauncherWithLibrary)
                  = str "systemsettings") by reflexivity.
  assert (Hlines : forall line,
             In line (split LF (unlines [str "Exec=systemsettings"])) ->
             unqualified (str "Name=") line = false).
  { intros line [<- | []]. reflexivity. }
  split; [exact Hexec|]. split; [exact Hlines|]. split.
  - exact (proj2 (proj2 (C3_absent_exactly_when bareLauncherWithLibrary))
             Hexec).
  - exact (proj1 (proj2 (C3_absent_exactly_when
                           (unlines [str "Exec=systemsettings"])))
             Hlines).
Defined.



(** C10: a line that starts with [Name=], [Comment=] or [X-KDE-Keywords=]
    and contains [[] anywhere, in the key or in the value, leaves every
    variable of the parser as it was; so a record whose [Name=] lines all
    contain [[] is absent, as is the record [Name=Foo [Beta]] with a valid
    Exec line, which parses once the brackets are taken out. *)
Theorem C10_bracket_lines_ignored :
  (forall v line,
      includes (str "[") line = true ->
      startsWith (str "Name=") line = true \/
      startsWith (str "Comment=") line = true \/
      startsWith (str "X-KDE-Keywords=") line = true ->
      parseLine v line = v) /\
  (forall content,
      (forall line, In line (split LF content) ->
                    startsWith (str "Name=") line = true ->
                    includes (str "[") line = true) ->
      parseContent content = None) /\
  parseContent bracketedNameRecord = None /\
  (exists m,
      parseContent
        (unlines [str "Name=Foo Beta"; str "Exec=systemsettings kcm_foo"])
      = Some m /\ name m = str "Foo Beta" /\ id m = str "kcm_foo").
Proof.
  split; [|split; [|split]].
  - intros v line Hinc Hkey.
    parseLine_cases line; try reflexivity;
      try (rewrite Hinc, andb_false_r in *; discriminate);
      exfalso; destruct Hkey as [H | [H | H]]; key_clash.
  - intros content Hlines. apply parseContent_no_name.
    rewrite extracted_name. apply valueOf_no_line.
    intros line Hin. unfold unqualified.
    destruct (startsWith (str "Name=") line) eqn:E; [|reflexivity].
    rewrite (Hlines line Hin E). reflexivity.
  - reflexivity.
  - eexists. split; [vm_compute; reflexivity|]. split; reflexivity.
Qed.

Lemma C10_bracket_lines_ignored_witness :
  parseLine initLocals (str "Name=Foo [Beta]") = initLocals /\
  parseLine initLocals (str "Comment=See [docs]") = initLocals.
Proof.
  destruct C10_bracket_lines_ignored as (Hline & _).
  split; apply Hline; try reflexivity.
  - left; reflexivity.
  - right; left; reflexivity.
Defined.

(** ** Sorting *)

Section Sorting.

Variable A : Type.
Variable cmp : A -> A -> Z.

Lemma insertSorted_Permutation (x : A) (l : list A) :
  Permutation (insertSorted cmp x l) (x :: l).
Proof.
  induction l as [|y l IH]; simpl; [reflexivity|].
  destruct (cmp x y <=? 0)%Z; [reflexivity|].
  rewrite IH. apply perm_swap.
Qed.

Lemma sort_Permutation (l : list A) : Permutation (sort cmp l) l.
Proof.
  induction l as [|x l IH]; simpl; [reflexivity|].
  rewrite insertSorted_Permutation, IH. reflexivity.
Qed.

Hypothesis consistent : Consistent cmp.

Lemma cmp_refl (a : A) : cmp a a = 0%Z.
Proof. destruct (cmp_flip consistent a a). lia. Qed.

Lemma cmp_tie_sym (a b : A) : cmp a b = 0%Z -> cmp b a = 0%Z.
Proof.
  intros H. destruct (cmp_flip consistent a b), (cmp_flip consistent b a).
  lia.
Qed.

Lemma insertSorted_sorted (x : A) (l : list A) :
  StronglySorted (ascending cmp) l ->
  StronglySorted (ascending cmp) (insertSorted cmp x l).
Proof.
  induction 1 as [|y l Hs IH Hy]; simpl.
  - constructor; constructor.
  - destruct (cmp x y <=? 0)%Z eqn:E.
    + apply Z.leb_le in E. constructor.
      * constructor; assumption.
      * constructor; [exact E|].
        eapply Forall_impl; [|exact Hy]. intros z Hz.
        exact (cmp_trans consistent x y z E Hz).
    + apply Z.leb_gt in E. constructor; [exact IH|].
      eapply Permutation_Forall.
      * symmetry. apply insertSorted_Permutation.
      * constructor; [|exact Hy].
        apply (cmp_flip consistent y x). lia.
Qed.

Lemma sort_sorted (l : list A) : StronglySorted (ascending cmp) (sort cmp l).
Proof.
  induction l as [|x l IH]; simpl;
    [constructor | apply insertSorted_sorted, IH].
Qed.

(** Insertion never moves an element past one it ties with. *)
Lemma insertSorted_ties (z x : A) (l : list A) :
  ties cmp z (insertSorted cmp x l) = ties cmp z (x :: l).
Proof.
  induction l as [|y l IH]; [reflexivity|].
  simpl insertSorted. destruct (cmp x y <=? 0)%Z eqn:E; [reflexivity|].
  apply Z.leb_gt in E.
  unfold ties in *. simpl in *. rewrite IH.
  destruct (cmp y z =? 0)%Z eqn:Ey, (cmp x z =? 0)%Z eqn:Ex; try reflexivity.
  exfalso. apply Z.eqb_eq in Ey, Ex.
  apply cmp_tie_sym in Ey.
  assert (cmp x y <= 0)%Z by (apply (cmp_trans consistent x z y); lia).
  lia.
Qed.

Lemma sort_stable (l : list A) : StableFor cmp l (sort cmp l).
Proof.
  intros z. induction l as [|x l IH]; [reflexivity|].
  simpl sort. rewrite insertSorted_ties.
  unfold ties in *. simpl. rewrite IH. reflexivity.
Qed.

Lemma ties_In (z x : A) (l : list A) : In x (ties cmp z l) -> In x l.
Proof. unfold ties. intros H. apply filter_In in H. tauto. Qed.

Lemma sorted_head_least (a x : A) (l : list A) :
  StronglySorted (ascending cmp) (a :: l) -> In x (a :: l) ->
  (cmp a x <= 0)%Z.
Proof.
  intros Hs [<- | Hx].
  - rewrite cmp_refl. lia.
  - apply StronglySorted_inv in Hs as [_ Hall].
    rewrite Forall_forall in Hall. exact (Hall x Hx).
Qed.

(** There is one stable ascending arrangement: two ascending lists with
    the same groups of ties, in the same order, are equal. *)
Lemma stable_sorted_unique (l1 l2 : list A) :
  StronglySorted (ascending cmp) l1 ->
  StronglySorted (ascending cmp) l2 ->
  (forall z, ties cmp z l1 = ties cmp z l2) ->
  l1 = l2.
Proof.
  revert l2. induction l1 as [|a l1 IH]; intros l2 H1 H2 Hties.
  - destruct l2 as [|b l2]; [reflexivity|].
    specialize (Hties b). unfold ties in Hties. simpl in Hties.
    rewrite cmp_refl in Hties. discriminate.
  - destruct l2 as [|b l2].
    { specialize (Hties a). unfold ties in Hties. simpl in Hties.
      rewrite cmp_refl in Hties. discriminate. }
    assert (Hba : (cmp b a <= 0)%Z).
    { apply (sorted_head_least b a l2 H2), (ties_In a).
      rewrite <- Hties. unfold ties. simpl. rewrite cmp_refl. left.
      reflexivity. }
    assert (Hab : (cmp a b <= 0)%Z).
    { apply (sorted_head_least a b l1 H1), (ties_In b).
      rewrite Hties. unfold ties. simpl. rewrite cmp_refl. left.
      reflexivity. }
    assert (Hb0 : cmp b a = 0%Z).
    { destruct (cmp_flip consistent a b). lia. }
    assert (a = b) as <-.
    { pose proof (Hties a) as H. unfold ties in H. simpl in H.
      rewrite cmp_refl, Hb0 in H. simpl in H. congruence. }
    f_equal. apply IH.
    + apply StronglySorted_inv in H1. tauto.
    + apply StronglySorted_inv in H2. tauto.
    + intros z. specialize (Hties z). unfold ties in *. simpl in Hties.
      destruct (cmp a z =? 0)%Z; congruence.
Qed.

Lemma sort_unique (l l' : list A) :
  StronglySorted (ascending cmp) l' -> StableFor cmp l l' ->
  l' = sort cmp l.
Proof.
  intros Hs Hst. apply stable_sorted_unique; [exact Hs | apply sort_sorted|].
  intros z. rewrite (Hst z). symmetry. apply sort_stable.
Qed.

Lemma sort_idempotent (l : list A) : sort cmp (sort cmp l) = sort cmp l.
Proof.
  symmetry. apply sort_unique; [apply sort_sorted|].
  intros z. reflexivity.
Qed.

End Sorting.

Lemma byName_Consistent (localeCompare : jsstring -> jsstring -> Z) :
  Consistent localeCompare -> Consistent (byName localeCompare).
Proof.
  intros [Hflip Htrans]. split; unfold byName.
  - intros a b. apply Hflip.
  - intros a b c. apply Htrans.
Qed.

(** The stand-in collation is consistent. *)
Lemma compareCodeUnits_flip (a b : jsstring) :
  compareCodeUnits b a = (- compareCodeUnits a b)%Z.
Proof.
  revert b. induction a as [|x a IH]; intros [|y b]; simpl; try reflexivity.
  rewrite (N.compare_antisym x y).
  destruct (N.compare x y); simpl; auto.
Qed.

Lemma compareCodeUnits_trans (a b c : jsstring) :
  (compareCodeUnits a b <= 0 -> compareCodeUnits b c <= 0 ->
   compareCodeUnits a c <= 0)%Z.
Proof.
  revert b c. induction a as [|x a IH]; intros [|y b] [|z c]; simpl;
    try lia.
  destruct (N.compare_spec x y), (N.compare_spec y z),
    (N.compare_spec x z); subst; try lia; eauto; intros; lia.
Qed.

Lemma compareCodeUnits_Consistent : Consistent compareCodeUnits.
Proof.
  split.
  - intros a b. rewrite (compareCodeUnits_flip a b). lia.
  - exact compareCodeUnits_trans.
Qed.

(** ** The scanner *)

Lemma has_In (seen : StringSet) (x : jsstring) :
  has seen x = true <-> In x seen.
Proof.
  unfold has. rewrite existsb_exists. split.
  - intros [y [Hy E]]. apply eqb_str_eq in E. subst. exact Hy.
  - intros H. exists x. split; [exact H | apply eqb_str_refl].
Qed.

Lemma has_not_In (seen : StringSet) (x : jsstring) :
  has seen x = false <-> ~ In x seen.
Proof.
  rewrite <- has_In. destruct (has seen x); split; congruence.
Qed.

Lemma has_add (seen : StringSet) (x y : jsstring) :
  has (add seen x) y = true <-> y = x \/ has seen y = true.
Proof.
  unfold add. destruct (has seen x) eqn:E.
  - split; [auto | intros [-> | H]; assumption].
  - rewrite !has_In. simpl. split; intros [H | H]; auto.
Qed.

Lemma FirstWithId_In (l : list KCMModule) (m : KCMModule) :
  FirstWithId l m -> In m l.
Proof.
  intros (pre & post & -> & _). apply in_or_app. right. left. reflexivity.
Qed.

Lemma FirstWithId_head (a : KCMModule) (l : list KCMModule) :
  FirstWithId (a :: l) a.
Proof. exists [], l. split; [reflexivity | intros m' []]. Qed.

Lemma FirstWithId_cons (a m : KCMModule) (l : list KCMModule) :
  id a <> id m -> FirstWithId l m -> FirstWithId (a :: l) m.
Proof.
  intros Hne (pre & post & -> & Hpre). exists (a :: pre), post.
  split; [reflexivity|]. intros m' [<- | H]; auto.
Qed.

Lemma FirstWithId_cons_inv (a m : KCMModule) (l : list KCMModule) :
  FirstWithId (a :: l) m -> m = a \/ (id a <> id m /\ FirstWithId l m).
Proof.
  intros ([|b pre] & post & H & Hpre); injection H as -> ->.
  - left. reflexivity.
  - right. split; [apply Hpre; left; reflexivity|].
    exists pre, post. split; [reflexivity|].
    intros m' Hm'. apply Hpre. right. exact Hm'.
Qed.

Lemma FirstWithId_app (l l' : list KCMModule) (m : KCMModule) :
  FirstWithId l m -> FirstWithId (l ++ l') m.
Proof.
  intros (pre & post & -> & Hpre). exists pre, (post ++ l').
  split; [|exact Hpre]. rewrite <- app_assoc. reflexivity.
Qed.

(** Every candidate has a first candidate with the same id. *)
Lemma first_with_id (l : list KCMModule) (a : KCMModule) :
  In a l -> exists m, FirstWithId l m /\ id m = id a.
Proof.
  induction l as [|b l IH]; [intros []|]. intros Hin.
  destruct (eqb_str (id b) (id a)) eqn:E.
  - apply eqb_str_eq in E. exists b. split; [apply FirstWithId_head | exact E].
  - apply eqb_str_neq in E. destruct Hin as [-> | Hin]; [congruence|].
    destruct (IH Hin) as (m & Hm & Hid). exists m. split; [|exact Hid].
    apply FirstWithId_cons; [congruence | exact Hm].
Qed.

Lemma keepFirst_app (kept c1 c2 : list KCMModule) :
  keepFirst kept (c1 ++ c2) = keepFirst (keepFirst kept c1) c2.
Proof. unfold keepFirst. apply fold_left_app. Qed.

Lemma keepFirst_In (cands kept : list KCMModule) (m : KCMModule) :
  In m (keepFirst kept cands) <->
  In m kept \/ (~ In (id m) (map id kept) /\ FirstWithId cands m).
Proof.
  revert kept. induction cands as [|a cands IH]; intros kept.
  - simpl. split; [auto|].
    intros [H | [_ (pre & post & H & _)]]; [exact H|].
    destruct pre; discriminate.
  - change (keepFirst kept (a :: cands))
      with (keepFirst (if has (map id kept) (id a) then kept
                       else kept ++ [a]) cands).
    destruct (has (map id kept) (id a)) eqn:E; rewrite IH.
    + apply has_In in E. split; (intros [H | [Hn HF]]; [left; exact H|]).
      * right. split; [exact Hn|]. apply FirstWithId_cons; [|exact HF].
        intros Heq. apply Hn. rewrite <- Heq. exact E.
      * right. split; [exact Hn|].
        destruct (FirstWithId_cons_inv a m cands HF) as [-> | [_ H]];
          [contradiction | exact H].
    + apply has_not_In in E. rewrite map_app, !in_app_iff. simpl. split.
      * intros [[H | [<- | []]] | [Hn HF]].
        -- left. exact H.
        -- right. split; [exact E | apply FirstWithId_head].
        -- right. split; [tauto|].
           apply FirstWithId_cons; [|exact HF]. intros Heq. apply Hn.
           right. left. exact Heq.
      * intros [H | [Hn HF]]; [left; left; exact H|].
        destruct (FirstWithId_cons_inv a m cands HF) as [-> | [Hne H]].
        -- left. right. left. reflexivity.
        -- right. split; [|exact H]. intros [Hk | [Heq | []]]; auto.
Qed.

Lemma keepFirst_NoDup (cands kept : list KCMModule) :
  NoDup (map id kept) -> NoDup (map id (keepFirst kept cands)).
Proof.
  revert kept. induction cands as [|a cands IH]; intros kept Hk;
    [exact Hk|].
  change (keepFirst kept (a :: cands))
    with (keepFirst (if has (map id kept) (id a) then kept
                     else kept ++ [a]) cands).
  destruct (has (map id kept) (id a)) eqn:E; apply IH; [exact Hk|].
  apply has_not_In in E. rewrite map_app. simpl.
  apply (Permutation_NoDup (l := id a :: map id kept)).
  - apply Permutation_cons_append.
  - constructor; assumption.
Qed.

Section ScannerFacts.

Variable fs : FileSystem.

Lemma SeenAgrees_start : SeenAgrees ([], []).
Proof. intros x. simpl. split; [discriminate | intros []]. Qed.

Lemma visit_keepFirst (dir file : jsstring) (st : ScanState) :
  SeenAgrees st ->
  SeenAgrees (visit fs dir st file) /\
  fst (visit fs dir st file) =
  keepFirst (fst st) (optionToList (parseDesktopFile fs (join dir file))).
Proof.
  destruct st as [modules seen]. intros Hag. unfold visit.
  destruct (parseDesktopFile fs (join dir file)) as [module|];
    [|split; [exact Hag | reflexivity]].
  simpl optionToList. unfold keepFirst. simpl fold_left.
  destruct (has seen (id module)) eqn:E; simpl.
  - split; [exact Hag|].
    apply (Hag (id module)) in E. apply has_In in E. simpl in E.
    rewrite E. reflexivity.
  - assert (E' : has (map id modules) (id module) = false).
    { apply has_not_In. intros H. apply (Hag (id module)) in H.
      simpl in H. congruence. }
    rewrite E'. split; [|reflexivity].
    intros x. simpl. rewrite has_add, map_app, in_app_iff. simpl.
    rewrite (Hag x). simpl. split; intros [H | H]; auto.
    + destruct H as [H | []]. left. symmetry. exact H.
Qed.

Lemma scan_loop_keepFirst (dir : jsstring) (accept : jsstring -> bool)
  (files : list jsstring) (st : ScanState) :
  SeenAgrees st ->
  SeenAgrees (fold_left (fun st file => if accept file
                                        then visit fs dir st file else st)
                        files st) /\
  fst (fold_left (fun st file => if accept file
                                 then visit fs dir st file else st)
                 files st) =
  keepFirst (fst st)
    (flat_map (fun file =>
                 if accept file
                 then optionToList (parseDesktopFile fs (join dir file))
                 else []) files).
Proof.
  revert st. induction files as [|file files IH]; intros st Hag.
  - split; [exact Hag | reflexivity].
  - simpl fold_left. simpl flat_map. rewrite keepFirst_app.
    destruct (accept file).
    + destruct (visit_keepFirst dir file st Hag) as [Hag' Hfst].
      destruct (IH _ Hag') as [Hag'' Hfst'].
      split; [exact Hag''|]. rewrite Hfst', Hfst. reflexivity.
    + exact (IH st Hag).
Qed.

Lemma scanDirectory_keepFirst (dir : jsstring) (accept : jsstring -> bool)
  (st : ScanState) :
  SeenAgrees st ->
  SeenAgrees (scanDirectory fs dir accept st) /\
  fst (scanDirectory fs dir accept st) =
  keepFirst (fst st) (candidatesOf fs dir accept).
Proof.
  intros Hag. unfold scanDirectory, candidatesOf.
  destruct (existsSync fs dir); [|split; [exact Hag | reflexivity]].
  destruct (readdirSync fs dir) as [files|];
    [|split; [exact Hag | reflexivity]].
  apply scan_loop_keepFirst, Hag.
Qed.

(** Before the sort, [modules] holds the first occurrences among the
    candidates of the modern origin followed by those of the legacy one. *)
Lemma collectModules_keepFirst :
  collectModules fs =
  keepFirst [] (modernCandidates fs ++ legacyCandidates fs).
Proof.
  unfold collectModules, modernCandidates, legacyCandidates.
  destruct (scanDirectory_keepFirst applicationsDir isModernEntry ([], [])
              SeenAgrees_start) as [Hag1 Hfst1].
  destruct (scanDirectory_keepFirst kservices5Dir isLegacyEntry _ Hag1)
    as [_ Hfst2].
  rewrite Hfst2, Hfst1, keepFirst_app. reflexivity.
Qed.

End ScannerFacts.

Example sample_scan :
  map (fun m => (name m, execCommand m))
      (loadKCMModules compareCodeUnits sampleFileSystem) =
  [ (str "Accessibility", str "kcmshell6 kcm_access");
    (str "Bar Settings", str "systemsettings kcm_bar");
    (str "Foo", str "systemsettings kcm_foo") ].
Proof. vm_compute. reflexivity. Qed.

(** C4: the scanner's result holds no two descriptors with the same id.
    Its members are exactly the first occurrences of their ids among the
    well-formed descriptors of the modern origin followed by those of the
    legacy origin; every id that occurs is represented; and an id that
    occurs in the modern origin is represented by a descriptor of the
    modern origin. *)
Theorem C4_first_occurrence_wins
  (localeCompare : jsstring -> jsstring -> Z) (fs : FileSystem) :
  NoDup (map id (loadKCMModules localeCompare fs)) /\
  (forall m,
      In m (loadKCMModules localeCompare fs) <->
      FirstWithId (modernCandidates fs ++ legacyCandidates fs) m) /\
  (forall a,
      In a (modernCandidates fs ++ legacyCandidates fs) ->
      exists m, In m (loadKCMModules localeCompare fs) /\ id m = id a) /\
  (forall a,
      In a (modernCandidates fs) ->
      exists m, In m (loadKCMModules localeCompare fs) /\
                id m = id a /\ In m (modernCandidates fs)).
Proof.
  pose proof (sort_Permutation _ (byName localeCompare) (collectModules fs))
    as Hperm.
  fold (loadKCMModules localeCompare fs) in Hperm.
  assert (Hin : forall m,
             In m (loadKCMModules localeCompare fs) <->
             FirstWithId (modernCandidates fs ++ legacyCandidates fs) m).
  { intros m. split.
    - intros H. apply (Permutation_in _ Hperm) in H.
      rewrite collectModules_keepFirst in H.
      apply keepFirst_In in H as [[] | [_ H]]. exact H.
    - intros H. apply (Permutation_in _ (Permutation_sym Hperm)).
      rewrite collectModules_keepFirst. apply keepFirst_In.
      right. split; [intros [] | exact H]. }
  split; [|split; [exact Hin | split]].
  - apply (Permutation_NoDup (l := map id (collectModules fs))).
    + apply Permutation_map, Permutation_sym, Hperm.
    + rewrite collectModules_keepFirst. apply keepFirst_NoDup. constructor.
  - intros a Ha. destruct (first_with_id _ a Ha) as (m & Hm & Hid).
    exists m. split; [apply Hin, Hm | exact Hid].
  - intros a Ha. destruct (first_with_id _ a Ha) as (m & Hm & Hid).
    exists m. split; [|split; [exact Hid | exact (FirstWithId_In _ _ Hm)]].
    apply Hin, FirstWithId_app, Hm.
Qed.

Lemma C4_first_occurrence_wins_witness :
  exists m,
    In m (loadKCMModules compareCodeUnits sampleFileSystem) /\
    id m = str "kcm_bar" /\
    In m (modernCandidates sampleFileSystem).
Proof.
  destruct (C4_first_occurrence_wins compareCodeUnits sampleFileSystem)
    as (_ & _ & _ & Hmodern).
  apply (Hmodern {| id := str "kcm_bar"; name := str "Bar Settings";
                    description := str "Bar Settings";
                    icon := str "preferences-system"; keywords := [];
                    execCommand := str "systemsettings kcm_bar" |}).
  vm_compute. right. left. reflexivity.
Defined.

(** C5: for a consistent [localeCompare], the scanner's result is the
    deduplicated collection rearranged in ascending order of name; names
    that tie keep the order they had in the collection; it is the only
    such arrangement, so every conforming sort returns it, and sorting it
    again leaves it unchanged. *)
Theorem C5_sorted_by_name
  (localeCompare : jsstring -> jsstring -> Z) (fs : FileSystem) :
  Consistent localeCompare ->
  StronglySorted (fun a b => (localeCompare (name a) (name b) <= 0)%Z)
                 (loadKCMModules localeCompare fs) /\
  Permutation (collectModules fs) (loadKCMModules localeCompare fs) /\
  StableFor (byName localeCompare) (collectModules fs)
            (loadKCMModules localeCompare fs) /\
  (forall l',
      StronglySorted (ascending (byName localeCompare)) l' ->
      StableFor (byName localeCompare) (collectModules fs) l' ->
      l' = loadKCMModules localeCompare fs) /\
  sort (byName localeCompare) (loadKCMModules localeCompare fs) =
  loadKCMModules localeCompare fs.
Proof.
  intros Hc. apply byName_Consistent in Hc. unfold loadKCMModules.
  split; [|split; [|split; [|split]]].
  - exact (sort_sorted _ _ Hc (collectModules fs)).
  - symmetry. apply sort_Permutation.
  - exact (sort_stable _ _ Hc (collectModules fs)).
  - intros l' Hs Hst. exact (sort_unique _ _ Hc _ _ Hs Hst).
  - exact (sort_idempotent _ _ Hc (collectModules fs)).
Qed.

Lemma C5_sorted_by_name_witness :
  Consistent compareCodeUnits /\
  StronglySorted (fun a b => (compareCodeUnits (name a) (name b) <= 0)%Z)
                 (loadKCMModules compareCodeUnits sampleFileSystem).
Proof.
  split; [exact compareCodeUnits_Consistent|].
  exact (proj1 (C5_sorted_by_name compareCodeUnits sampleFileSystem
                  compareCodeUnits_Consistent)).
Defined.

(** ** The search filter *)

Lemma filter_Subsequence (A : Type) (f : A -> bool) (l : list A) :
  Subsequence (filter f l) l.
Proof.
  induction l as [|x l IH]; simpl; [constructor|].
  destruct (f x); constructor; exact IH.
Qed.

Lemma filter_idempotent (A : Type) (f : A -> bool) (l : list A) :
  filter f (filter f l) = filter f l.
Proof.
  induction l as [|x l IH]; simpl; [reflexivity|].
  destruct (f x) eqn:E; simpl; [rewrite E, IH|]; auto.
Qed.

Lemma filter_all (A : Type) (f : A -> bool) (l : list A) :
  (forall x, f x = true) -> filter f l = l.
Proof.
  intros H. induction l as [|x l IH]; simpl; [reflexivity|].
  rewrite (H x), IH. reflexivity.
Qed.

Section FilterFacts.

Variable toLowerCase : jsstring -> jsstring.

Lemma matchesSearch_Matches (searchText : jsstring) (m : KCMModule) :
  searchText <> [] ->
  (matchesSearch toLowerCase searchText m = true <->
   Matches toLowerCase searchText m).
Proof.
  intros Hne. unfold matchesSearch, Matches.
  apply truthy_true in Hne. rewrite Hne. simpl.
  rewrite !orb_true_iff, !includes_Substring, existsb_exists.
  split.
  - intros [[H | H] | [k [Hk H]]]; auto.
    right. right. exists k. rewrite <- includes_Substring. auto.
  - intros [H | [H | [k [Hk H]]]]; auto.
    right. exists k. rewrite includes_Substring. auto.
Qed.

End FilterFacts.

Example bluetooth_query :
  filteredModules toLowerCaseBasicLatin [bluetooth; display] (str "bt")
  = [bluetooth] /\
  filteredModules toLowerCaseBasicLatin [bluetooth; display] (str "")
  = [bluetooth; display].
Proof. split; reflexivity. Qed.

(** C6: with the empty query the filter returns its input unchanged; with
    a non-empty query it keeps a descriptor exactly when the lower-cased
    query is a substring of the lower-cased name, or of the lower-cased
    description, or of at least one lower-cased keyword. *)
Theorem C6_filter_predicate (toLowerCase : jsstring -> jsstring) :
  (forall modules, filteredModules toLowerCase modules [] = modules) /\
  (forall searchText m,
      searchText <> [] ->
      (matchesSearch toLowerCase searchText m = true <->
       Matches toLowerCase searchText m)) /\
  (forall modules searchText m,
      searchText <> [] ->
      (In m (filteredModules toLowerCase modules searchText) <->
       In m modules /\ Matches toLowerCase searchText m)).
Proof.
  split; [|split].
  - intros modules. apply filter_all. reflexivity.
  - apply matchesSearch_Matches.
  - intros modules searchText m Hne. unfold filteredModules.
    rewrite filter_In, (matchesSearch_Matches toLowerCase searchText m Hne).
    reflexivity.
Qed.

Lemma C6_filter_predicate_witness :
  str "bt" <> [] /\
  In bluetooth
     (filteredModules toLowerCaseBasicLatin [bluetooth; display] (str "bt")).
Proof.
  assert (Hne : str "bt" <> []) by discriminate.
  split; [exact Hne|].
  destruct (C6_filter_predicate toLowerCaseBasicLatin) as (_ & _ & Hkeep).
  apply (Hkeep [bluetooth; display] (str "bt") bluetooth Hne).
  split; [left; reflexivity|].
  right. right. exists (str "BT"). split; [right; left; reflexivity|].
  exists [], []. reflexivity.
Defined.

(** C7: the filter's result is a subsequence of the collection, in the
    collection's order, and filtering it again with the same query changes
    nothing. *)
Theorem C7_filter_subsequence_idempotent
  (toLowerCase : jsstring -> jsstring)
  (c : list KCMModule) (q : jsstring) :
  Subsequence (filteredModules toLowerCase c q) c /\
  filteredModules toLowerCase (filteredModules toLowerCase c q) q =
  filteredModules toLowerCase c q.
Proof.
  unfold filteredModules.
  split; [apply filter_Subsequence | apply filter_idempotent].
Qed.

(** ** The launch invokers *)

(** The exported invoker asks the boundary for a limit of 20000 ms and
    reports every failure the boundary answers with: it never throws,
    whenever the launch is rejected an error toast with the failure's
    message is among the events, and nothing but the boundary's answer
    under that limit decides its course. *)
Lemma CommandExecutor_openKCMModule_reports
  (world : ProcessBoundary) (errorMessage : ExecFailure -> jsstring)
  (moduleName command : jsstring) (log : list Event) :
  (forall e,
      snd (CommandExecutor.openKCMModule world errorMessage moduleName
             command log) <> Throws e) /\
  (forall e,
      world command (Some 20000%N) = Throws e ->
      In (Toast (str "Error")
                (str "Failed to open " ++ moduleName ++ str ": "
                 ++ errorMessage e))
         (fst (CommandExecutor.openKCMModule world errorMessage moduleName
                 command log))) /\
  (forall world' : ProcessBoundary,
      world' command (Some 20000%N) = world command (Some 20000%N) ->
      CommandExecutor.openKCMModule world' errorMessage moduleName
        command log =
      CommandExecutor.openKCMModule world errorMessage moduleName
        command log).
Proof.
  unfold CommandExecutor.openKCMModule, tryCatch, bind, showToast,
    closeMainWindow, emit, execAsync.
  split; [|split].
  - intros e. destruct (world command (Some 20000%N)) as [[]|e'|];
      simpl; discriminate.
  - intros e He. rewrite He. simpl.
    apply in_or_app. right. left. reflexivity.
  - intros world' E. simpl. rewrite E. reflexivity.
Qed.

(** The search command's own invoker asks for no limit: when the
    boundary, left without one, never answers, its promise is never
    settled. *)
Lemma openKCMModule_never_settles
  (world : ProcessBoundary) (command : jsstring) (log : list Event) :
  world command None = NeverSettles ->
  openKCMModule world command log = (log, NeverSettles).
Proof.
  intros H. unfold openKCMModule, tryCatch, execAsync. rewrite H.
  reflexivity.
Qed.

(** It never throws, and it shows no toast: what it adds to the log is at
    most one console message. *)
Lemma openKCMModule_no_toast
  (world : ProcessBoundary) (command : jsstring) (log : list Event) :
  (forall e, snd (openKCMModule world command log) <> Throws e) /\
  (fst (openKCMModule world command log) = log \/
   exists e, fst (openKCMModule world command log)
             = log ++ [ConsoleError e]).
Proof.
  unfold openKCMModule, tryCatch, execAsync, consoleError, emit.
  destruct (world command None) as [[]|e'|]; simpl.
  - split; [discriminate | left; reflexivity].
  - split; [discriminate | right; eexists; reflexivity].
  - split; [discriminate | left; reflexivity].
Qed.

(** C8 holds of the exported invoker and fails for the invoker the search
    command uses.  On a machine where the settings hub stays open and
    [kcmshell6] is missing: the search command's invoker waits without
    limit for [systemsettings kcm_foo] and reports the failure of
    [kcmshell6 kcm_bar] on the console only, with no toast; the exported
    invoker turns the first into a timeout failure and shows an error
    toast for both. *)
Theorem C8_search_invoker_unbounded_and_silent :
  openKCMModule sampleWorld (str "systemsettings kcm_foo") []
  = ([], NeverSettles) /\
  openKCMModule sampleWorld (str "kcmshell6 kcm_bar") []
  = ([ConsoleError (NonZeroExit 127)], Returns tt) /\
  CommandExecutor.openKCMModule sampleWorld sampleMessage
    (str "Foo") (str "systemsettings kcm_foo") []
  = ([Toast (str "Opening Foo...") (str "Launching KDE System Settings");
      Toast (str "Error") (str "Failed to open Foo: Command timed out")],
     Returns tt) /\
  CommandExecutor.openKCMModule sampleWorld sampleMessage
    (str "Bar") (str "kcmshell6 kcm_bar") []
  = ([Toast (str "Opening Bar...") (str "Launching KDE System Settings");
      Toast (str "Error") (str "Failed to open Bar: Command failed")],
     Returns tt).
Proof. repeat split. Qed.

(* ================================================================== *)
(** * Part III.  Further properties of the code                        *)
(* ================================================================== *)

(** ** What a returned descriptor looks like *)

Lemma noWhitespace_Trimmed (s : jsstring) :
  noWhitespace s = true -> Trimmed s.
Proof.
  intros H. unfold noWhitespace in H. rewrite forallb_forall in H.
  split; intros c r E; apply negb_true_iff, H.
  - rewrite E. left. reflexivity.
  - apply in_rev. rewrite E. left. reflexivity.
Qed.

Lemma SecondToken_noWhitespace (s t2 : jsstring) :
  SecondToken s t2 -> t2 <> [] /\ noWhitespace t2 = true.
Proof. intros (_ & _ & _ & _ & _ & _ & _ & _ & H1 & H2 & _). auto. Qed.

Lemma kcmshell_Trimmed (m : jsstring) :
  m <> [] -> Trimmed m -> Trimmed (str "kcmshell6 " ++ m).
Proof.
  intros Hne [_ Hlast]. split; intros c r E.
  - injection E as <- _. reflexivity.
  - rewrite rev_app_distr in E.
    destruct (rev m) as [|d rm] eqn:Erev.
    + apply (f_equal (@rev N)) in Erev. rewrite rev_involutive in Erev.
      contradiction.
    + injection E as <- _. exact (Hlast d rm eq_refl).
Qed.

(** The two shapes of a resolved identifier and command. *)
Lemma resolveCommand_shape (e mid i c : jsstring) :
  Trimmed e -> resolveCommand e mid = (i, c) -> i <> [] ->
  (includes (str "systemsettings") e = true /\
   SecondToken e i /\ c = e) \/
  (includes (str "systemsettings") e = false /\
   mid <> [] /\ i = mid /\ c = str "kcmshell6 " ++ mid).
Proof.
  intros Htrim Hres Hi.
  destruct (includes (str "systemsettings") e) eqn:Hinc.
  - left. split; [reflexivity|].
    assert (He : e <> []).
    { intros ->. rewrite token_not_in_empty in Hinc. discriminate. }
    destruct (tokens_of_trimmed e Htrim He) as [Hno | [t2 Hsec]].
    + rewrite (resolve_bare e mid Hinc Hno) in Hres. congruence.
    + rewrite (resolve_modern e mid t2 Hinc Hsec) in Hres.
      injection Hres as <- <-. split; [exact Hsec | reflexivity].
  - right. split; [reflexivity|]. destruct mid as [|d mid].
    + rewrite (resolve_nothing e Hinc) in Hres. congruence.
    + rewrite (resolve_legacy e (d :: mid) Hinc) in Hres; [|discriminate].
      injection Hres as <- <-. repeat split. discriminate.
Qed.

Lemma parseLine_fields_Trimmed (v : Locals) (line : jsstring) :
  Trimmed (v_name v) /\ Trimmed (v_description v) /\
  Trimmed (v_icon v) /\ Trimmed (v_moduleId v) ->
  Trimmed (v_name (parseLine v line)) /\
  Trimmed (v_description (parseLine v line)) /\
  Trimmed (v_icon (parseLine v line)) /\
  Trimmed (v_moduleId (parseLine v line)).
Proof.
  intros (Hn & Hd & Hi & Hm).
  parseLine_cases line; simpl; (split; [|split; [|split]]);
    auto using trim_Trimmed.
Qed.

Lemma parseLines_fields_Trimmed (content : jsstring) :
  Trimmed (v_name (parseLines content)) /\
  Trimmed (v_description (parseLines content)) /\
  Trimmed (v_icon (parseLines content)) /\
  Trimmed (v_moduleId (parseLines content)).
Proof.
  unfold parseLines.
  apply (fold_left_invariant _ _
           (fun v => Trimmed (v_name v) /\ Trimmed (v_description v) /\
                     Trimmed (v_icon v) /\ Trimmed (v_moduleId v))).
  - simpl. auto using Trimmed_nil.
  - intros v line. apply parseLine_fields_Trimmed.
Qed.

Lemma default_icon_well_formed :
  str "preferences-system" <> [] /\ Trimmed (str "preferences-system").
Proof.
  split; [vm_compute; discriminate|].
  apply noWhitespace_Trimmed. reflexivity.
Qed.

(** X1: every string field of a descriptor the parser returns is
    non-empty and carries no white space at either end. *)
Theorem X1_descriptor_fields_well_formed (content : jsstring)
  (m : KCMModule) :
  parseContent content = Some m ->
  (id m <> [] /\ Trimmed (id m)) /\
  (name m <> [] /\ Trimmed (name m)) /\
  (description m <> [] /\ Trimmed (description m)) /\
  (icon m <> [] /\ Trimmed (icon m)) /\
  (execCommand m <> [] /\ Trimmed (execCommand m)).
Proof.
  intros H.
  destruct (parseContent_Some_inv content m H)
    as (Hname & Hid & Hres & En & Ed & Ei & _).
  destruct (parseLines_fields_Trimmed content) as (Tn & Td & Ti & Tm).
  pose proof (parseLines_exec_Trimmed content) as Te.
  assert (Hn : name m <> [] /\ Trimmed (name m)) by (rewrite En; auto).
  assert (Hd : description m <> [] /\ Trimmed (description m)).
  { rewrite Ed.
    destruct (truthy (v_description (parseLines content))) eqn:E; auto.
    apply truthy_true in E. auto. }
  assert (Hi : icon m <> [] /\ Trimmed (icon m)).
  { rewrite Ei.
    destruct (truthy (v_icon (parseLines content))) eqn:E.
    - apply truthy_true in E. auto.
    - exact default_icon_well_formed. }
  symmetry in Hres.
  destruct (resolveCommand_shape _ _ _ _ Te Hres Hid)
    as [(Hinc & Hsec & Hc) | (Hinc & Hmid & Hi' & Hc)].
  - destruct (SecondToken_noWhitespace _ _ Hsec) as [_ Hno].
    split; [split; [exact Hid | exact (noWhitespace_Trimmed _ Hno)]|].
    repeat (split; [assumption|]).
    rewrite Hc. split; [|exact Te].
    intros E. rewrite E, token_not_in_empty in Hinc. discriminate.
  - split; [rewrite Hi'; auto|].
    repeat (split; [assumption|]).
    rewrite Hc. split; [|apply kcmshell_Trimmed; auto].
    intros E. apply app_eq_nil in E as [E _]. vm_compute in E.
    discriminate.
Qed.

Lemma X1_descriptor_fields_well_formed_witness :
  exists m, parseContent crlfRecord = Some m /\
            name m <> [] /\ Trimmed (name m) /\ Trimmed (description m).
Proof.
  destruct (parseContent crlfRecord) as [m|] eqn:E;
    [|vm_compute in E; discriminate].
  exists m. split; [reflexivity|].
  destruct (X1_descriptor_fields_well_formed crlfRecord m E)
    as (_ & (Hn & Tn) & (_ & Td) & _).
  auto.
Defined.

(** X2: the launch command of a returned descriptor has one of two
    shapes.  Either it is the record's Exec value, contains
    [systemsettings], and the id is its second white-space separated
    token (so the id holds no white space); or the Exec value does not
    contain [systemsettings], the id is the record's X-KDE-Library value
    and the command is [kcmshell6 ] followed by the id.  Either way the
    id occurs in the command. *)
Theorem X2_launch_command_shape (content : jsstring) (m : KCMModule) :
  parseContent content = Some m ->
  ((execCommand m = valueOf (startsWith (str "Exec=")) 5 content /\
    Substring (str "systemsettings") (execCommand m) /\
    SecondToken (execCommand m) (id m) /\
    noWhitespace (id m) = true) \/
   (~ Substring (str "systemsettings")
        (valueOf (startsWith (str "Exec=")) 5 content) /\
    id m = valueOf (startsWith (str "X-KDE-Library=")) 14 content /\
    execCommand m = str "kcmshell6 " ++ id m)) /\
  Substring (id m) (execCommand m).
Proof.
  intros H.
  destruct (parseContent_Some_inv content m H)
    as (_ & Hid & Hres & _).
  pose proof (parseLines_exec_Trimmed content) as Te.
  symmetry in Hres.
  destruct (resolveCommand_shape _ _ _ _ Te Hres Hid)
    as [(Hinc & Hsec & Hc) | (Hinc & Hmid & Hi & Hc)].
  - rewrite <- Hc in Hsec, Hinc. split.
    + left. split; [rewrite Hc; apply extracted_execCommand|].
      split; [apply includes_Substring, Hinc|].
      split; [exact Hsec | exact (proj2 (SecondToken_noWhitespace _ _ Hsec))].
    + destruct Hsec as (t1 & ws & rest & E & _).
      exists (t1 ++ ws), rest. rewrite E, <- !app_assoc. reflexivity.
  - split.
    + right. rewrite <- extracted_execCommand, <- extracted_moduleId.
      split; [|split; [exact Hi | rewrite Hc, Hi; reflexivity]].
      rewrite <- includes_Substring, Hinc. discriminate.
    + exists (str "kcmshell6 "), []. rewrite Hc, Hi, app_nil_r. reflexivity.
Qed.

Lemma X2_launch_command_shape_witness :
  exists m, parseContent legacyRecord = Some m /\
            Substring (id m) (execCommand m).
Proof.
  destruct (parseContent legacyRecord) as [m|] eqn:E;
    [|vm_compute in E; discriminate].
  exists m. split; [reflexivity|].
  exact (proj2 (X2_launch_command_shape legacyRecord m E)).
Defined.

(** ** Which lines count *)

Lemma find_app_first (A : Type) (f : A -> bool) (l1 l2 : list A) :
  find f (l1 ++ l2) =
  match find f l1 with Some x => Some x | None => find f l2 end.
Proof.
  induction l1 as [|a l1 IH]; simpl; [reflexivity|].
  destruct (f a); [reflexivity | exact IH].
Qed.

Lemma lastLine_decomposed (sel : jsstring -> bool)
  (content : jsstring) (pre post : list jsstring) (line : jsstring) :
  split LF content = pre ++ line :: post ->
  sel line = true ->
  (forall l, In l post -> sel l = false) ->
  lastLine sel content = Some line.
Proof.
  intros Hs Hline Hpost. unfold lastLine.
  rewrite Hs, rev_app_distr. simpl. rewrite <- app_assoc.
  rewrite find_app_first, find_none_of.
  - simpl. rewrite Hline. reflexivity.
  - intros x Hx. apply Hpost, in_rev, Hx.
Qed.

Lemma extracted_keywords (content : jsstring) :
  v_keywords (parseLines content) =
  match lastLine (unqualified (str "X-KDE-Keywords=")) content with
  | Some line => parseKeywords (trim (substring 15 line))
  | None => []
  end.
Proof.
  unfold parseLines, lastLine.
  rewrite (last_line_wins _ v_keywords
             (unqualified (str "X-KDE-Keywords="))
             (fun l => parseKeywords (trim (substring 15 l)))
             keywords_set keywords_kept).
  reflexivity.
Qed.

(** X3: when a key is assigned on several lines the last one counts.
    The name of a returned descriptor is the trimmed value of the last
    unqualified [Name=] line of the record, and its keywords are those of
    the last unqualified [X-KDE-Keywords=] line; lines before it, whatever
    they assign, leave no trace.  A record with no such keywords line has
    no keywords. *)
Theorem X3_last_assignment_counts (content : jsstring) (m : KCMModule) :
  parseContent content = Some m ->
  (forall pre line post,
      split LF content = pre ++ line :: post ->
      unqualified (str "Name=") line = true ->
      (forall l, In l post -> unqualified (str "Name=") l = false) ->
      name m = trim (substring 5 line)) /\
  (forall pre line post,
      split LF content = pre ++ line :: post ->
      unqualified (str "X-KDE-Keywords=") line = true ->
      (forall l, In l post ->
                 unqualified (str "X-KDE-Keywords=") l = false) ->
      keywords m = parseKeywords (trim (substring 15 line))) /\
  ((forall l, In l (split LF content) ->
              unqualified (str "X-KDE-Keywords=") l = false) ->
   keywords m = []).
Proof.
  intros H.
  destruct (parseContent_Some_inv content m H)
    as (_ & _ & _ & En & _ & _ & Ek).
  rewrite En, Ek, extracted_name, extracted_keywords. unfold valueOf.
  split; [|split].
  - intros pre line post Hs Hl Hp.
    rewrite (lastLine_decomposed _ content pre post line Hs Hl Hp).
    reflexivity.
  - intros pre line post Hs Hl Hp.
    rewrite (lastLine_decomposed _ content pre post line Hs Hl Hp).
    reflexivity.
  - intros Hn. unfold lastLine. rewrite find_none_of; [reflexivity|].
    intros x Hx. apply Hn, in_rev, Hx.
Qed.

Lemma X3_last_assignment_counts_witness :
  exists m, parseContent repeatedKeysRecord = Some m /\
            name m = str "Second" /\ keywords m = [str "three"].
Proof.
  destruct (parseContent repeatedKeysRecord) as [m|] eqn:E;
    [|vm_compute in E; discriminate].
  exists m. split; [reflexivity|].
  destruct (X3_last_assignment_counts repeatedKeysRecord m E)
    as (Hname & Hkw & _).
  split.
  - apply (Hname [str "Name=First"; str "Exec=systemsettings kcm_first";
                  str "X-KDE-Keywords=one,two"]
                 (str "Name=Second")
                 [str "X-KDE-Keywords=three"; str "Name[fr]=Troisieme"]);
      [reflexivity | reflexivity|].
    intros l [<- | [<- | []]]; reflexivity.
  - apply (Hkw [str "Name=First"; str "Exec=systemsettings kcm_first";
                str "X-KDE-Keywords=one,two"; str "Name=Second"]
               (str "X-KDE-Keywords=three")
               [str "Name[fr]=Troisieme"]);
      [reflexivity | reflexivity|].
    intros l [<- | []]; reflexivity.
Defined.

(** *** Keywords *)

Lemma split_no_separator (sep : N) (s w : jsstring) :
  In w (split sep s) -> ~ In sep w.
Proof.
  revert w. induction s as [|c s IH]; simpl; intros w Hw.
  - destruct Hw as [<- | []]. intros [].
  - destruct (N.eqb_spec c sep) as [-> | Hne].
    + destruct Hw as [<- | Hw]; [intros [] | exact (IH w Hw)].
    + destruct (split sep s) as [|w0 ws] eqn:E.
      * destruct Hw as [<- | []]. intros [H | []]. congruence.
      * destruct Hw as [<- | Hw].
        -- intros [H | H]; [congruence|].
           exact (IH w0 (or_introl eq_refl) H).
        -- exact (IH w (or_intror Hw)).
Qed.

Lemma dropWhile_incl (f : N -> bool) (s : jsstring) (c : N) :
  In c (dropWhile f s) -> In c s.
Proof.
  induction s as [|d s IH]; simpl; [auto|].
  destruct (f d); [intros H; right; exact (IH H) | auto].
Qed.

Lemma trim_incl (s : jsstring) (c : N) : In c (trim s) -> In c s.
Proof.
  unfold trim. intros H. apply in_rev in H.
  apply dropWhile_incl, in_rev, dropWhile_incl in H. exact H.
Qed.

Lemma parseKeywords_well_formed (s k : jsstring) :
  In k (parseKeywords s) -> k <> [] /\ Trimmed k /\ ~ In COMMA k.
Proof.
  unfold parseKeywords. intros H. apply filter_In in H as [H Hlen].
  apply in_map_iff in H as (w & <- & Hw). split; [|split].
  - intros E. rewrite E in Hlen. discriminate.
  - apply trim_Trimmed.
  - intros Hc. apply trim_incl in Hc.
    exact (split_no_separator COMMA s w Hw Hc).
Qed.

Lemma parseLines_keywords_well_formed (content k : jsstring) :
  In k (v_keywords (parseLines content)) ->
  k <> [] /\ Trimmed k /\ ~ In COMMA k.
Proof.
  rewrite extracted_keywords.
  destruct (lastLine _ content); [apply parseKeywords_well_formed|].
  intros [].
Qed.

(** X5: every keyword of a returned descriptor is non-empty, carries no
    white space at either end and holds no comma. *)
Theorem X5_keywords_well_formed (content : jsstring) (m : KCMModule)
  (k : jsstring) :
  parseContent content = Some m -> In k (keywords m) ->
  k <> [] /\ Trimmed k /\ ~ In COMMA k.
Proof.
  intros H Hk.
  destruct (parseContent_Some_inv content m H) as (_ & _ & _ & _ & _ & _ & Ek).
  rewrite Ek in Hk. exact (parseLines_keywords_well_formed content k Hk).
Qed.

Lemma X5_keywords_well_formed_witness :
  exists m, parseContent crlfRecord = Some m /\
            In (str "BT") (keywords m) /\ Trimmed (str "BT").
Proof.
  destruct (parseContent crlfRecord) as [m|] eqn:E;
    [|vm_compute in E; discriminate].
  exists m. split; [reflexivity|].
  assert (Hk : In (str "BT") (keywords m)).
  { vm_compute in E. injection E as <-. right. left. reflexivity. }
  split; [exact Hk|].
  exact (proj1 (proj2 (X5_keywords_well_formed crlfRecord m (str "BT")
                         E Hk))).
Defined.

(** *** Lines the parser does not look at *)

Lemma parseLine_unrecognised (v : Locals) (line : jsstring) :
  recognised line = false -> parseLine v line = v.
Proof.
  unfold recognised. rewrite !orb_false_iff.
  intros (((((H1 & H2) & H3) & H4) & H5) & H6).
  unfold parseLine. rewrite H1, H2, H3, H4, H5, H6. reflexivity.
Qed.

Lemma qualified_unrecognised (key t : jsstring) :
  In key keyNames -> recognised (key ++ str "[" ++ t) = false.
Proof.
  intros [<- | [<- | [<- | [<- | [<- | [<- | []]]]]]]; reflexivity.
Qed.

Lemma fold_recognised_only (lines : list jsstring) (v : Locals) :
  fold_left parseLine (filter recognised lines) v =
  fold_left parseLine lines v.
Proof.
  revert v. induction lines as [|line lines IH]; intros v; [reflexivity|].
  simpl. destruct (recognised line) eqn:E; simpl.
  - apply IH.
  - rewrite (parseLine_unrecognised v line E). apply IH.
Qed.

Lemma parseContent_same_locals (c c' : jsstring) :
  parseLines c' = parseLines c -> parseContent c' = parseContent c.
Proof. intros H. unfold parseContent. rewrite H. reflexivity. Qed.

(** X6: a line that starts with none of the six keys changes nothing, and
    that holds for every locale-qualified line [Key[xx]=...] of the six
    keys; so a record parses the same once all such lines (group headers,
    comments, translations, other keys) are taken out. *)
Theorem X6_unrecognised_lines_ignored :
  (forall v line, recognised line = false -> parseLine v line = v) /\
  (forall v key t, In key keyNames ->
                   parseLine v (key ++ str "[" ++ t) = v) /\
  (forall c c',
      split LF c' = filter recognised (split LF c) ->
      parseContent c' = parseContent c).
Proof.
  split; [exact parseLine_unrecognised|]. split.
  - intros v key t Hk. apply parseLine_unrecognised.
    exact (qualified_unrecognised key t Hk).
  - intros c c' H. apply parseContent_same_locals. unfold parseLines.
    rewrite H. apply fold_recognised_only.
Qed.

Lemma X6_unrecognised_lines_ignored_witness :
  split LF strippedRecord = filter recognised (split LF fullRecord) /\
  parseContent strippedRecord = parseContent fullRecord.
Proof.
  assert (H : split LF strippedRecord
              = filter recognised (split LF fullRecord)) by reflexivity.
  split; [exact H|].
  destruct X6_unrecognised_lines_ignored as (_ & _ & Hstrip).
  exact (Hstrip fullRecord strippedRecord H).
Defined.

(** *** White space at the end of a line *)

Lemma dropWhile_all (f : N -> bool) (ws x : jsstring) :
  forallb f ws = true -> dropWhile f (ws ++ x) = dropWhile f x.
Proof.
  induction ws as [|w ws IH]; simpl; [reflexivity|].
  intros H. apply andb_true_iff in H as [Hw Hws]. rewrite Hw. exact (IH Hws).
Qed.

Lemma dropWhile_app_nil (f : N -> bool) (s ws : jsstring) :
  forallb f ws = true -> dropWhile f s = [] -> dropWhile f (s ++ ws) = [].
Proof.
  intros Hws. induction s as [|c s IH]; simpl.
  - intros _. rewrite <- (app_nil_r ws). rewrite (dropWhile_all f ws [] Hws).
    reflexivity.
  - destruct (f c); [exact IH | discriminate].
Qed.

Lemma dropWhile_app_cons (f : N -> bool) (s ws : jsstring) :
  dropWhile f s <> [] -> dropWhile f (s ++ ws) = dropWhile f s ++ ws.
Proof.
  induction s as [|c s IH]; simpl; [congruence|].
  destruct (f c); [exact IH | reflexivity].
Qed.

Lemma allWhitespace_reversed (ws : jsstring) :
  allWhitespace ws = true -> allWhitespace (rev ws) = true.
Proof.
  unfold allWhitespace. rewrite !forallb_forall.
  intros H c Hc. apply H, in_rev, Hc.
Qed.

Lemma trim_padded (s ws : jsstring) :
  allWhitespace ws = true -> trim (s ++ ws) = trim s.
Proof.
  intros Hws. pose proof (allWhitespace_reversed ws Hws) as Hrev.
  unfold trim, allWhitespace in *.
  destruct (dropWhile isWhiteSpace s) as [|c u] eqn:E.
  - rewrite (dropWhile_app_nil isWhiteSpace s ws Hws E). reflexivity.
  - rewrite dropWhile_app_cons by (rewrite E; discriminate).
    rewrite E, rev_app_distr, dropWhile_all; [reflexivity | exact Hrev].
Qed.

Lemma startsWith_padded (p l ws : jsstring) :
  noWhitespace p = true -> allWhitespace ws = true ->
  startsWith p (l ++ ws) = startsWith p l.
Proof.
  intros Hp Hws. revert l. induction p as [|x p IH]; intros l;
    [reflexivity|].
  simpl in Hp. apply andb_true_iff in Hp as [Hx Hp].
  apply negb_true_iff in Hx.
  destruct l as [|y l]; simpl.
  - destruct ws as [|w ws]; [reflexivity|]. simpl in Hws.
    apply andb_true_iff in Hws as [Hw _].
    destruct (N.eqb_spec x w) as [-> | _]; [congruence | reflexivity].
  - rewrite (IH Hp l). reflexivity.
Qed.

Lemma includes_one (c : N) (l : jsstring) :
  includes [c] l = existsb (N.eqb c) l.
Proof.
  induction l as [|y l IH]; [reflexivity|].
  simpl. simpl in IH. rewrite IH, andb_true_r. reflexivity.
Qed.

Lemma bracket_padded (l ws : jsstring) :
  allWhitespace ws = true ->
  includes (str "[") (l ++ ws) = includes (str "[") l.
Proof.
  intros Hws. change (str "[") with [91%N].
  rewrite !includes_one, existsb_app.
  assert (E : existsb (N.eqb 91) ws = false).
  { unfold allWhitespace in Hws. rewrite forallb_forall in Hws.
    destruct (existsb (N.eqb 91) ws) eqn:E; [|reflexivity].
    apply existsb_exists in E as (w & Hw & Ew).
    apply N.eqb_eq in Ew. subst w. specialize (Hws _ Hw). discriminate. }
  rewrite E. apply orb_false_r.
Qed.

Lemma value_padded (key line ws : jsstring) (n : nat) :
  startsWith key line = true -> length key = n ->
  allWhitespace ws = true ->
  trim (substring n (line ++ ws)) = trim (substring n line).
Proof.
  intros Hk Hn Hws. apply startsWith_prefix in Hk as [t ->].
  unfold substring. rewrite <- app_assoc, <- Hn.
  rewrite !skipn_app, !skipn_all, Nat.sub_diag. simpl.
  apply trim_padded, Hws.
Qed.

Ltac line_cases line :=
  destruct (startsWith (str "Name=") line && negb (includes (str "[") line))
    eqn:?;
  [|destruct (startsWith (str "Comment=") line
              && negb (includes (str "[") line)) eqn:?;
    [|destruct (startsWith (str "Icon=") line) eqn:?;
      [|destruct (startsWith (str "X-KDE-Keywords=") line
                  && negb (includes (str "[") line)) eqn:?;
        [|destruct (startsWith (str "X-KDE-Library=") line) eqn:?;
          [|destruct (startsWith (str "Exec=") line) eqn:?]]]]].

Lemma parseLine_padded (v : Locals) (line line' : jsstring) :
  Padded line line' -> parseLine v line' = parseLine v line.
Proof.
  intros (ws & Hws & ->). unfold parseLine.
  rewrite !(startsWith_padded _ line ws) by (reflexivity || exact Hws).
  rewrite (bracket_padded line ws Hws).
  line_cases line; try reflexivity; split_conds;
    match goal with
    | H : startsWith ?key line = true
      |- context [substring ?n (line ++ ws)] =>
        rewrite (value_padded key line ws n H eq_refl Hws)
    end; reflexivity.
Qed.

Lemma fold_padded (lines lines' : list jsstring) (v : Locals) :
  Forall2 Padded lines lines' ->
  fold_left parseLine lines' v = fold_left parseLine lines v.
Proof.
  intros H. revert v. induction H as [|l l' ls ls' Hl _ IH]; intros v;
    [reflexivity|].
  simpl. rewrite (parseLine_padded v l l' Hl). apply IH.
Qed.

(** X4: white space at the end of a line does not matter.  A record
    whose lines carry extra trailing white space, such as the carriage
    returns of a file with Windows line ends, parses to the same result
    as the record without it. *)
Theorem X4_trailing_whitespace_ignored (c c' : jsstring) :
  Forall2 Padded (split LF c) (split LF c') ->
  parseContent c' = parseContent c.
Proof.
  intros H. apply parseContent_same_locals. unfold parseLines.
  apply fold_padded, H.
Qed.

Lemma X4_trailing_whitespace_ignored_witness :
  Forall2 Padded (split LF fullRecord) (split LF crlfRecord) /\
  parseContent crlfRecord = parseContent fullRecord.
Proof.
  assert (H : Forall2 Padded (split LF fullRecord) (split LF crlfRecord)).
  { repeat (constructor;
            [first [ exists [13%N]; split; reflexivity
                   | exists [32%N; 32%N; 13%N]; split; reflexivity ]|]).
    constructor. }
  split; [exact H|].
  exact (X4_trailing_whitespace_ignored fullRecord crlfRecord H).
Defined.

(** ** Where the scanner's descriptors come from *)

Lemma candidatesOf_ParsedFrom (fs : FileSystem) (dir : jsstring)
  (accept : jsstring -> bool) (m : KCMModule) :
  In m (candidatesOf fs dir accept) <-> ParsedFrom fs dir accept m.
Proof.
  unfold candidatesOf, ParsedFrom, parseDesktopFile.
  destruct (existsSync fs dir).
  2:{ split; [intros [] | intros [H _]; discriminate]. }
  destruct (readdirSync fs dir) as [files|].
  2:{ split; [intros [] | intros [_ (fl & f & c & H & _)]; discriminate]. }
  rewrite in_flat_map. split.
  - intros (file & Hin & Hm). split; [reflexivity|].
    destruct (accept file) eqn:Ha; [|destruct Hm].
    destruct (readFileSync fs (join dir file)) as [content|] eqn:Hr;
      [|destruct Hm].
    destruct (parseContent content) as [m'|] eqn:Hp; [|destruct Hm].
    destruct Hm as [<- | []].
    exists files, file, content. auto.
  - intros (_ & fl & file & content & [= <-] & Hin & Ha & Hr & Hp).
    exists file. split; [exact Hin|].
    rewrite Ha, Hr, Hp. left. reflexivity.
Qed.

Lemma loaded_iff_first (localeCompare : jsstring -> jsstring -> Z)
  (fs : FileSystem) (m : KCMModule) :
  In m (loadKCMModules localeCompare fs) <->
  FirstWithId (modernCandidates fs ++ legacyCandidates fs) m.
Proof.
  unfold loadKCMModules.
  pose proof (sort_Permutation _ (byName localeCompare) (collectModules fs))
    as Hperm.
  split.
  - intros H. apply (Permutation_in _ Hperm) in H.
    rewrite collectModules_keepFirst in H.
    apply keepFirst_In in H as [[] | [_ H]]. exact H.
  - intros H. apply (Permutation_in _ (Permutation_sym Hperm)).
    rewrite collectModules_keepFirst. apply keepFirst_In.
    right. split; [intros [] | exact H].
Qed.

Lemma isModernEntry_desktop (file : jsstring) :
  isModernEntry file = true -> endsWith (str ".desktop") file = true.
Proof. unfold isModernEntry. intros H. apply andb_true_iff in H. tauto. Qed.

(** X7: every descriptor the scanner returns is the parse of a readable
    file that is listed in [/usr/share/applications] under a name with
    prefix [kcm_] and suffix [.desktop], or listed in
    [/usr/share/kservices5] under a name with suffix [.desktop]. *)
Theorem X7_descriptors_come_from_the_origins
  (localeCompare : jsstring -> jsstring -> Z) (fs : FileSystem)
  (m : KCMModule) :
  In m (loadKCMModules localeCompare fs) ->
  ParsedFrom fs applicationsDir
    (fun file => startsWith (str "kcm_") file
                 && endsWith (str ".desktop") file) m \/
  ParsedFrom fs kservices5Dir (endsWith (str ".desktop")) m.
Proof.
  intros H. apply loaded_iff_first, FirstWithId_In, in_app_or in H.
  destruct H as [H | H]; [left | right];
    exact (proj1 (candidatesOf_ParsedFrom fs _ _ m) H).
Qed.

Lemma X7_descriptors_come_from_the_origins_witness :
  exists m,
    In m (loadKCMModules compareCodeUnits sampleFileSystem) /\
    (ParsedFrom sampleFileSystem applicationsDir
       (fun file => startsWith (str "kcm_") file
                    && endsWith (str ".desktop") file) m \/
     ParsedFrom sampleFileSystem kservices5Dir
       (endsWith (str ".desktop")) m).
Proof.
  destruct (loadKCMModules compareCodeUnits sampleFileSystem)
    as [|m l] eqn:E; [vm_compute in E; discriminate|].
  exists m. assert (Hin : In m (loadKCMModules compareCodeUnits
                                  sampleFileSystem))
    by (rewrite E; left; reflexivity).
  rewrite <- E. split; [exact Hin|].
  exact (X7_descriptors_come_from_the_origins compareCodeUnits
           sampleFileSystem m Hin).
Defined.

(** X8: the scan is empty exactly when no accepted, readable file of
    either directory parses; in particular when neither directory
    exists. *)
Theorem X8_empty_scan
  (localeCompare : jsstring -> jsstring -> Z) (fs : FileSystem) :
  (loadKCMModules localeCompare fs = [] <->
   forall m, ~ ParsedFrom fs applicationsDir isModernEntry m /\
             ~ ParsedFrom fs kservices5Dir isLegacyEntry m) /\
  (existsSync fs applicationsDir = false ->
   existsSync fs kservices5Dir = false ->
   loadKCMModules localeCompare fs = []).
Proof.
  assert (Hiff : loadKCMModules localeCompare fs = [] <->
                 forall m, ~ ParsedFrom fs applicationsDir isModernEntry m /\
                           ~ ParsedFrom fs kservices5Dir isLegacyEntry m).
  { split.
    - intros E m.
      split; intros H; apply candidatesOf_ParsedFrom in H;
        [ destruct (first_with_id (modernCandidates fs
                                   ++ legacyCandidates fs) m
                      (in_or_app _ _ m (or_introl H))) as (m' & Hm' & _)
        | destruct (first_with_id (modernCandidates fs
                                   ++ legacyCandidates fs) m
                      (in_or_app _ _ m (or_intror H))) as (m' & Hm' & _) ];
        apply (loaded_iff_first localeCompare) in Hm';
        rewrite E in Hm'; destruct Hm'.
    - intros Hnone.
      destruct (loadKCMModules localeCompare fs) as [|m l] eqn:E;
        [reflexivity|].
      exfalso.
      assert (Hin : In m (loadKCMModules localeCompare fs))
        by (rewrite E; left; reflexivity).
      apply loaded_iff_first, FirstWithId_In, in_app_or in Hin.
      destruct (Hnone m) as [Ha Hb].
      destruct Hin as [H | H]; apply candidatesOf_ParsedFrom in H; auto. }
  split; [exact Hiff|].
  intros Ha Hb. apply Hiff. intros m.
  split; intros [H _]; congruence.
Qed.

Lemma X8_empty_scan_witness :
  existsSync emptyFileSystem applicationsDir = false /\
  existsSync emptyFileSystem kservices5Dir = false /\
  loadKCMModules compareCodeUnits emptyFileSystem = [].
Proof.
  split; [reflexivity|]. split; [reflexivity|].
  apply (proj2 (X8_empty_scan compareCodeUnits emptyFileSystem));
    reflexivity.
Defined.

(** *** The scanner reads nothing else *)

Lemma flat_map_agree (A B : Type) (f g : A -> list B) (l : list A) :
  (forall a, In a l -> f a = g a) -> flat_map f l = flat_map g l.
Proof.
  induction l as [|a l IH]; intros H; [reflexivity|].
  simpl. rewrite (H a (or_introl eq_refl)), IH; [reflexivity|].
  intros b Hb. apply H. right. exact Hb.
Qed.

Lemma candidatesOf_agree (fs fs' : FileSystem) (dir : jsstring)
  (accept : jsstring -> bool) :
  AgreeOn fs fs' dir accept ->
  candidatesOf fs dir accept = candidatesOf fs' dir accept.
Proof.
  intros (He & Hd & Hf). unfold candidatesOf. rewrite <- He, <- Hd.
  destruct (existsSync fs dir); [|reflexivity].
  destruct (readdirSync fs dir) as [files|] eqn:E; [|reflexivity].
  apply flat_map_agree. intros file Hin.
  destruct (accept file) eqn:Ha; [|reflexivity].
  unfold parseDesktopFile. rewrite (Hf files file eq_refl Hin Ha).
  reflexivity.
Qed.

(** X9: the scan depends on nothing but the two directory listings and
    the files in them that pass the name tests.  Two file systems that
    agree on those give the same result, whatever else they hold and
    whatever the entries with other names contain. *)
Theorem X9_scan_reads_only_the_origins
  (localeCompare : jsstring -> jsstring -> Z) (fs fs' : FileSystem) :
  AgreeOn fs fs' applicationsDir isModernEntry ->
  AgreeOn fs fs' kservices5Dir isLegacyEntry ->
  loadKCMModules localeCompare fs = loadKCMModules localeCompare fs'.
Proof.
  intros Ha Hb. unfold loadKCMModules.
  rewrite !collectModules_keepFirst. unfold modernCandidates, legacyCandidates.
  rewrite (candidatesOf_agree fs fs' _ _ Ha),
    (candidatesOf_agree fs fs' _ _ Hb).
  reflexivity.
Qed.

Lemma X9_scan_reads_only_the_origins_witness :
  AgreeOn sampleFileSystem noisyFileSystem applicationsDir isModernEntry /\
  AgreeOn sampleFileSystem noisyFileSystem kservices5Dir isLegacyEntry /\
  loadKCMModules compareCodeUnits sampleFileSystem =
  loadKCMModules compareCodeUnits noisyFileSystem.
Proof.
  assert (Ha : AgreeOn sampleFileSystem noisyFileSystem applicationsDir
                 isModernEntry).
  { split; [reflexivity|]. split; [reflexivity|].
    intros files file Hd Hin Hacc. vm_compute in Hd. injection Hd as <-.
    destruct Hin as [<- | [<- | [<- | []]]]; try reflexivity.
    vm_compute in Hacc. discriminate. }
  assert (Hb : AgreeOn sampleFileSystem noisyFileSystem kservices5Dir
                 isLegacyEntry).
  { split; [reflexivity|]. split; [reflexivity|].
    intros files file Hd Hin Hacc. vm_compute in Hd. injection Hd as <-.
    destruct Hin as [<- | [<- | [<- | [<- | []]]]]; try reflexivity.
    vm_compute in Hacc. discriminate. }
  split; [exact Ha|]. split; [exact Hb|].
  exact (X9_scan_reads_only_the_origins compareCodeUnits
           sampleFileSystem noisyFileSystem Ha Hb).
Defined.

(** ** Searching *)

Lemma Substring_refl (s : jsstring) : Substring s s.
Proof. exists [], []. rewrite app_nil_r. reflexivity. Qed.

Lemma Substring_trans (a b c : jsstring) :
  Substring a b -> Substring b c -> Substring a c.
Proof.
  intros (p1 & q1 & ->) (p2 & q2 & ->).
  exists (p2 ++ p1), (q1 ++ q2). rewrite <- !app_assoc. reflexivity.
Qed.

Lemma filter_filter_implied (A : Type) (f g : A -> bool) (l : list A) :
  (forall x, f x = true -> g x = true) ->
  filter f (filter g l) = filter f l.
Proof.
  intros H. induction l as [|x l IH]; [reflexivity|]. simpl.
  destruct (g x) eqn:Eg; simpl.
  - rewrite IH. reflexivity.
  - destruct (f x) eqn:Ef; [|exact IH].
    rewrite (H x Ef) in Eg. discriminate.
Qed.

Section SearchFacts.

Variable toLowerCase : jsstring -> jsstring.

Lemma matchesSearch_narrower (q q' : jsstring) (m : KCMModule) :
  q' <> [] ->
  Substring (toLowerCase q) (toLowerCase q') ->
  matchesSearch toLowerCase q' m = true ->
  matchesSearch toLowerCase q m = true.
Proof.
  intros Hq' Hsub Hm. destruct q as [|c q]; [reflexivity|].
  apply matchesSearch_Matches; [discriminate|].
  apply (matchesSearch_Matches toLowerCase q' m Hq') in Hm.
  destruct Hm as [H | [H | (k & Hk & H)]].
  - left. exact (Substring_trans _ _ _ Hsub H).
  - right. left. exact (Substring_trans _ _ _ Hsub H).
  - right. right. exists k. split; [exact Hk|].
    exact (Substring_trans _ _ _ Hsub H).
Qed.

Lemma matches_own_text (q : jsstring) (m : KCMModule) :
  q <> [] ->
  q = name m \/ q = description m \/ In q (keywords m) ->
  matchesSearch toLowerCase q m = true.
Proof.
  intros Hq H. apply matchesSearch_Matches; [exact Hq|].
  destruct H as [-> | [-> | H]].
  - left. apply Substring_refl.
  - right. left. apply Substring_refl.
  - right. right. exists q. split; [exact H | apply Substring_refl].
Qed.

End SearchFacts.

(** X10: narrowing a search is consistent.  When the lower-cased query
    [q] occurs in the lower-cased, non-empty query [q'] (the user typed
    on), filtering the rows already filtered by [q] with [q'] gives the
    same rows as filtering the whole collection with [q']; the rows for
    [q'] are a subsequence of the rows for [q]. *)
Theorem X10_narrowing_is_consistent (toLowerCase : jsstring -> jsstring)
  (c : list KCMModule) (q q' : jsstring) :
  q' <> [] ->
  Substring (toLowerCase q) (toLowerCase q') ->
  filteredModules toLowerCase (filteredModules toLowerCase c q) q' =
  filteredModules toLowerCase c q' /\
  Subsequence (filteredModules toLowerCase c q')
              (filteredModules toLowerCase c q).
Proof.
  intros Hq' Hsub.
  assert (E : filteredModules toLowerCase
                (filteredModules toLowerCase c q) q' =
              filteredModules toLowerCase c q').
  { unfold filteredModules. apply filter_filter_implied.
    intros m. apply matchesSearch_narrower; assumption. }
  split; [exact E|]. rewrite <- E. apply filter_Subsequence.
Qed.

Lemma X10_narrowing_is_consistent_witness :
  str "bt" <> [] /\
  Substring (toLowerCaseBasicLatin (str "B"))
            (toLowerCaseBasicLatin (str "bt")) /\
  filteredModules toLowerCaseBasicLatin
    (filteredModules toLowerCaseBasicLatin [bluetooth; display] (str "B"))
    (str "bt") =
  filteredModules toLowerCaseBasicLatin [bluetooth; display] (str "bt").
Proof.
  assert (Hne : str "bt" <> []) by discriminate.
  assert (Hsub : Substring (toLowerCaseBasicLatin (str "B"))
                           (toLowerCaseBasicLatin (str "bt")))
    by (exists [], (str "t"); reflexivity).
  split; [exact Hne|]. split; [exact Hsub|].
  exact (proj1 (X10_narrowing_is_consistent toLowerCaseBasicLatin
                  [bluetooth; display] (str "B") (str "bt") Hne Hsub)).
Defined.

(** *** What the scanner guarantees to the list *)

Lemma loaded_parsed (localeCompare : jsstring -> jsstring -> Z)
  (fs : FileSystem) (m : KCMModule) :
  In m (loadKCMModules localeCompare fs) ->
  exists content, parseContent content = Some m.
Proof.
  intros H. apply loaded_iff_first, FirstWithId_In, in_app_or in H.
  destruct H as [H | H]; apply candidatesOf_ParsedFrom in H;
    destruct H as (_ & files & file & content & _ & _ & _ & _ & Hp);
    exists content; exact Hp.
Qed.

Lemma parsed_texts_nonempty (content : jsstring) (m : KCMModule) :
  parseContent content = Some m ->
  name m <> [] /\ description m <> [] /\
  forall k, In k (keywords m) -> k <> [].
Proof.
  intros H.
  destruct (parseContent_Some_inv content m H)
    as (Hname & _ & _ & En & Ed & _ & Ek).
  split; [rewrite En; exact Hname|]. split.
  - rewrite Ed.
    destruct (truthy (v_description (parseLines content))) eqn:E;
      [apply truthy_true in E|]; assumption.
  - intros k Hk. rewrite Ek in Hk.
    exact (proj1 (parseLines_keywords_well_formed content k Hk)).
Qed.

Lemma loaded_NoDup (localeCompare : jsstring -> jsstring -> Z)
  (fs : FileSystem) :
  NoDup (map id (loadKCMModules localeCompare fs)).
Proof.
  unfold loadKCMModules.
  apply (Permutation_NoDup (l := map id (collectModules fs))).
  - apply Permutation_map, Permutation_sym, sort_Permutation.
  - rewrite collectModules_keepFirst. apply keepFirst_NoDup. constructor.
Qed.

(** Leaving modules out keeps their ids distinct. *)
Lemma kept_ids_distinct (keep : KCMModule -> bool)
  (modules : list KCMModule) :
  NoDup (map id modules) -> NoDup (map id (filter keep modules)).
Proof.
  intros Hall. induction modules as [|m rest IH]; [constructor|].
  simpl in Hall. apply NoDup_cons_iff in Hall as [Hm Hrest].
  simpl. destruct (keep m); [|exact (IH Hrest)].
  simpl. constructor; [|exact (IH Hrest)].
  intros Hin. apply Hm. apply in_map_iff in Hin as (m' & Eid & Hm').
  apply filter_In in Hm' as [Hm' _]. apply in_map_iff. exists m'. auto.
Qed.

Lemma StronglySorted_filter (A : Type) (R : A -> A -> Prop)
  (p : A -> bool) (l : list A) :
  StronglySorted R l -> StronglySorted R (filter p l).
Proof.
  induction 1 as [|x l Hs IH Hx]; simpl; [constructor|].
  destruct (p x); [|exact IH].
  constructor; [exact IH|].
  rewrite Forall_forall in *. intros y Hy.
  apply filter_In in Hy as [Hy _]. exact (Hx y Hy).
Qed.

Lemma StronglySorted_map (A B : Type) (R : B -> B -> Prop) (f : A -> B)
  (l : list A) :
  StronglySorted (fun a b => R (f a) (f b)) l ->
  StronglySorted R (map f l).
Proof.
  induction 1 as [|x l Hs IH Hx]; simpl; constructor; [exact IH|].
  rewrite Forall_forall in *. intros y Hy.
  apply in_map_iff in Hy as (a & <- & Ha). exact (Hx a Ha).
Qed.

(** X11: whatever the query, the rows rendered from a scan carry pairwise
    distinct React keys, and for a consistent [localeCompare] their
    titles are in ascending order. *)
Theorem X11_rows_have_distinct_keys_and_sorted_titles
  (toLowerCase : jsstring -> jsstring)
  (localeCompare : jsstring -> jsstring -> Z) (fs : FileSystem)
  (searchText : jsstring) :
  NoDup (map item_key
           (renderList toLowerCase (loadKCMModules localeCompare fs)
                       searchText)) /\
  (Consistent localeCompare ->
   StronglySorted
     (fun a b => (localeCompare (item_title a) (item_title b) <= 0)%Z)
     (renderList toLowerCase (loadKCMModules localeCompare fs)
                 searchText)).
Proof.
  unfold renderList, filteredModules. split.
  - rewrite map_map. simpl.
    apply kept_ids_distinct, loaded_NoDup.
  - intros Hc. apply byName_Consistent in Hc.
    apply (StronglySorted_map _ _
             (fun a b => (localeCompare (item_title a) (item_title b)
                          <= 0)%Z)).
    simpl. apply StronglySorted_filter.
    exact (sort_sorted _ _ Hc (collectModules fs)).
Qed.

Lemma X11_rows_have_distinct_keys_and_sorted_titles_witness :
  Consistent compareCodeUnits /\
  StronglySorted
    (fun a b => (compareCodeUnits (item_title a) (item_title b) <= 0)%Z)
    (renderList toLowerCaseBasicLatin
                (loadKCMModules compareCodeUnits sampleFileSystem)
                (str "a")).
Proof.
  split; [exact compareCodeUnits_Consistent|].
  exact (proj2 (X11_rows_have_distinct_keys_and_sorted_titles
                  toLowerCaseBasicLatin compareCodeUnits sampleFileSystem
                  (str "a"))
               compareCodeUnits_Consistent).
Defined.

(** X12: every module of a scan can be found by typing its name, its
    description or any one of its keywords: the row is kept by the filter
    for that query, for every [toLowerCase]. *)
Theorem X12_every_module_can_be_found
  (toLowerCase : jsstring -> jsstring)
  (localeCompare : jsstring -> jsstring -> Z) (fs : FileSystem)
  (m : KCMModule) (q : jsstring) :
  In m (loadKCMModules localeCompare fs) ->
  q = name m \/ q = description m \/ In q (keywords m) ->
  In m (filteredModules toLowerCase (loadKCMModules localeCompare fs) q).
Proof.
  intros Hin Hq. unfold filteredModules. apply filter_In.
  split; [exact Hin|].
  destruct (loaded_parsed localeCompare fs m Hin) as [content Hp].
  destruct (parsed_texts_nonempty content m Hp) as (Hn & Hd & Hk).
  apply matches_own_text; [|exact Hq].
  destruct Hq as [-> | [-> | Hq]]; auto.
Qed.

Lemma X12_every_module_can_be_found_witness :
  exists m,
    In m (loadKCMModules compareCodeUnits sampleFileSystem) /\
    In m (filteredModules toLowerCaseBasicLatin
            (loadKCMModules compareCodeUnits sampleFileSystem) (name m)).
Proof.
  destruct (loadKCMModules compareCodeUnits sampleFileSystem)
    as [|m l] eqn:E; [vm_compute in E; discriminate|].
  exists m. assert (Hin : In m (loadKCMModules compareCodeUnits
                                  sampleFileSystem))
    by (rewrite E; left; reflexivity).
  rewrite <- E. split; [exact Hin|].
  exact (X12_every_module_can_be_found toLowerCaseBasicLatin
           compareCodeUnits sampleFileSystem m (name m) Hin
           (or_introl eq_refl)).
Defined.

(** X13: the row of a parsed descriptor never shows the same text twice:
    its subtitle differs from its title.  The subtitle is empty when the
    record has no Comment value or one equal to the name, and is the
    Comment value otherwise. *)
Theorem X13_subtitle (content : jsstring) (m : KCMModule) :
  parseContent content = Some m ->
  item_subtitle (renderItem m) <> item_title (renderItem m) /\
  (valueOf (unqualified (str "Comment=")) 8 content = [] \/
   valueOf (unqualified (str "Comment=")) 8 content = name m ->
   item_subtitle (renderItem m) = []) /\
  (valueOf (unqualified (str "Comment=")) 8 content <> [] ->
   valueOf (unqualified (str "Comment=")) 8 content <> name m ->
   item_subtitle (renderItem m) =
   valueOf (unqualified (str "Comment=")) 8 content).
Proof.
  intros H.
  destruct (parseContent_Some_inv content m H)
    as (Hname & _ & _ & En & Ed & _ & _).
  rewrite extracted_description in Ed. rewrite <- En in Hname.
  set (comment := valueOf (unqualified (str "Comment=")) 8 content) in *.
  unfold renderItem. simpl.
  destruct (eqb_str (description m) (name m)) eqn:E; simpl.
  - apply eqb_str_eq in E. split; [congruence|]. split; [reflexivity|].
    intros Hc Hcn. exfalso. apply truthy_true in Hc. rewrite Hc in Ed.
    congruence.
  - apply eqb_str_neq in E. split; [exact E|]. split.
    + intros [Hc | Hc]; exfalso.
      * rewrite Hc in Ed. simpl in Ed. rewrite <- En in Ed. contradiction.
      * destruct (truthy comment); rewrite <- ?En in Ed; congruence.
    + intros Hc _. apply truthy_true in Hc. rewrite Hc in Ed. exact Ed.
Qed.

Lemma X13_subtitle_witness :
  exists m, parseContent modernRecord = Some m /\
            item_subtitle (renderItem m) = [] /\
            item_subtitle (renderItem m) <> item_title (renderItem m).
Proof.
  destruct (parseContent modernRecord) as [m|] eqn:E;
    [|vm_compute in E; discriminate].
  exists m. split; [reflexivity|].
  destruct (X13_subtitle modernRecord m E) as (Hne & Hempty & _).
  split; [apply Hempty; left; reflexivity | exact Hne].
Defined.

(** ** Launching *)

(** X14: the exported invoker never throws, and the answer of the
    process boundary to its one call, with a limit of 20000 ms, decides
    what it does.  It first shows the "Opening" toast.  When the launch
    is fulfilled it shows the "Success" toast and closes the main window;
    when the launch is rejected, for whatever reason, it shows one
    "Error" toast with the failure's message and leaves the main window
    open; when the boundary never answers nothing more happens.  So the
    main window is closed exactly when the launch is fulfilled. *)
Theorem X14_exported_invoker_outcomes
  (world : ProcessBoundary) (errorMessage : ExecFailure -> jsstring)
  (moduleName command : jsstring) :
  (world command (Some 20000%N) = Returns tt ->
   CommandExecutor.openKCMModule world errorMessage moduleName command []
   = ([Toast (str "Opening " ++ moduleName ++ str "...")
             (str "Launching KDE System Settings");
       Toast (str "Success") (moduleName ++ str " opened successfully");
       CloseMainWindow],
      Returns tt)) /\
  (forall e,
      world command (Some 20000%N) = Throws e ->
      CommandExecutor.openKCMModule world errorMessage moduleName command []
      = ([Toast (str "Opening " ++ moduleName ++ str "...")
                (str "Launching KDE System Settings");
          Toast (str "Error")
                (str "Failed to open " ++ moduleName ++ str ": "
                 ++ errorMessage e)],
         Returns tt)) /\
  (world command (Some 20000%N) = NeverSettles ->
   CommandExecutor.openKCMModule world errorMessage moduleName command []
   = ([Toast (str "Opening " ++ moduleName ++ str "...")
             (str "Launching KDE System Settings")],
      NeverSettles)) /\
  (forall e,
      snd (CommandExecutor.openKCMModule world errorMessage moduleName
             command []) <> Throws e) /\
  (In CloseMainWindow
      (fst (CommandExecutor.openKCMModule world errorMessage moduleName
              command [])) <->
   world command (Some 20000%N) = Returns tt).
Proof.
  unfold CommandExecutor.openKCMModule, tryCatch, bind, showToast,
    closeMainWindow, emit, execAsync.
  split; [|split; [|split; [|split]]].
  - intros E. rewrite E. reflexivity.
  - intros e E. rewrite E. reflexivity.
  - intros E. rewrite E. reflexivity.
  - intros e. destruct (world command (Some 20000%N)) as [[]|e'|];
      simpl; discriminate.
  - destruct (world command (Some 20000%N)) as [[]|e'|]; simpl.
    + split; [reflexivity | intros _; right; right; left; reflexivity].
    + split; [intros [H | [H | []]]; discriminate | discriminate].
    + split; [intros [H | []]; discriminate | discriminate].
Qed.

Lemma X14_exported_invoker_outcomes_witness :
  harshWorld (str "systemsettings kcm_fonts") (Some 20000%N)
  = Throws OutputLimitExceeded /\
  CommandExecutor.openKCMModule harshWorld sampleMessage
    (str "Fonts") (str "systemsettings kcm_fonts") []
  = ([Toast (str "Opening Fonts...")
            (str "Launching KDE System Settings");
      Toast (str "Error")
            (str "Failed to open Fonts: stdout maxBuffer length exceeded")],
     Returns tt).
Proof.
  assert (E : harshWorld (str "systemsettings kcm_fonts") (Some 20000%N)
              = Throws OutputLimitExceeded) by reflexivity.
  split; [exact E|].
  destruct (X14_exported_invoker_outcomes harshWorld sampleMessage
              (str "Fonts") (str "systemsettings kcm_fonts"))
    as (_ & H & _).
  exact (H OutputLimitExceeded E).
Defined.

(** X15: the invoker of the search command makes its one call to the
    process boundary without a limit, and only the answer to that call
    matters.  It never throws, shows no toast and never closes the main
    window: a fulfilled launch leaves the log as it was, a rejected one
    adds one console message, and when the boundary never answers the
    promise is never settled. *)
Theorem X15_search_invoker_is_silent
  (world : ProcessBoundary) (command : jsstring) (log : list Event) :
  (forall e, snd (openKCMModule world command log) <> Throws e) /\
  (forall ev, In ev (fst (openKCMModule world command log)) ->
              In ev log \/ exists e, ev = ConsoleError e) /\
  (world command None = Returns tt ->
   openKCMModule world command log = (log, Returns tt)) /\
  (forall e,
      world command None = Throws e ->
      openKCMModule world command log
      = (log ++ [ConsoleError e], Returns tt)) /\
  (world command None = NeverSettles ->
   openKCMModule world command log = (log, NeverSettles)) /\
  (forall world' : ProcessBoundary,
      world' command None = world command None ->
      openKCMModule world' command log = openKCMModule world command log).
Proof.
  unfold openKCMModule, tryCatch, execAsync, consoleError, emit.
  split; [|split; [|split; [|split; [|split]]]].
  - intros e. destruct (world command None) as [[]|e'|]; simpl;
      discriminate.
  - intros ev. destruct (world command None) as [[]|e'|]; simpl; auto.
    intros H. apply in_app_or in H as [H | [<- | []]]; eauto.
  - intros E. rewrite E. reflexivity.
  - intros e E. rewrite E. reflexivity.
  - intros E. rewrite E. reflexivity.
  - intros world' E. rewrite E. reflexivity.
Qed.

Lemma X15_search_invoker_is_silent_witness :
  harshWorld (str "systemsettings kcm_fonts") None
  = Throws OutputLimitExceeded /\
  openKCMModule harshWorld (str "systemsettings kcm_fonts") []
  = ([ConsoleError OutputLimitExceeded], Returns tt).
Proof.
  assert (E : harshWorld (str "systemsettings kcm_fonts") None
              = Throws OutputLimitExceeded) by reflexivity.
  split; [exact E|].
  destruct (X15_search_invoker_is_silent harshWorld
              (str "systemsettings kcm_fonts") [])
    as (_ & _ & _ & H & _).
  exact (H OutputLimitExceeded E).
Defined.

(** ** The record as a set of last assignments *)

Lemma parseLines_extracted (content : jsstring) :
  parseLines content =
  {| v_name := valueOf (unqualified (str "Name=")) 5 content;
     v_description := valueOf (unqualified (str "Comment=")) 8 content;
     v_icon := valueOf (startsWith (str "Icon=")) 5 content;
     v_keywords :=
       match lastLine (unqualified (str "X-KDE-Keywords=")) content with
       | Some line => parseKeywords (trim (substring 15 line))
       | None => []
       end;
     v_moduleId := valueOf (startsWith (str "X-KDE-Library=")) 14 content;
     v_execCommand := valueOf (startsWith (str "Exec=")) 5 content |}.
Proof.
  rewrite <- extracted_name, <- extracted_description, <- extracted_icon,
    <- extracted_keywords, <- extracted_moduleId, <- extracted_execCommand.
  destruct (parseLines content). reflexivity.
Qed.

(** X17: the result depends on the record only through the last line
    that passes each of the six tests.  Two records with the same six
    last lines parse alike, whatever the order of their lines and
    whatever earlier lines assigned. *)
Theorem X17_only_last_lines_matter (c c' : jsstring) :
  (forall sel, In sel selectors -> lastLine sel c' = lastLine sel c) ->
  parseContent c' = parseContent c.
Proof.
  intros H. apply parseContent_same_locals.
  rewrite (parseLines_extracted c), (parseLines_extracted c').
  unfold valueOf.
  rewrite !H by (unfold selectors; simpl; tauto). reflexivity.
Qed.

Lemma X17_only_last_lines_matter_witness :
  (forall sel, In sel selectors ->
               lastLine sel reorderedRecord = lastLine sel fullRecord) /\
  parseContent reorderedRecord = parseContent fullRecord.
Proof.
  assert (H : forall sel, In sel selectors ->
                lastLine sel reorderedRecord = lastLine sel fullRecord).
  { intros sel [<- | [<- | [<- | [<- | [<- | [<- | []]]]]]]; reflexivity. }
  split; [exact H|].
  exact (X17_only_last_lines_matter fullRecord reorderedRecord H).
Defined.

(** ** Entries that are not modules *)

Lemma flat_map_filter_empty (A B : Type) (f : A -> list B)
  (p : A -> bool) (l : list A) :
  (forall a, p a = false -> f a = []) ->
  flat_map f (filter p l) = flat_map f l.
Proof.
  intros H. induction l as [|a l IH]; [reflexivity|]. simpl.
  destruct (p a) eqn:E; simpl; [rewrite IH; reflexivity|].
  rewrite (H a E). exact IH.
Qed.

Lemma parseDesktopFile_same_reads (fs fs' : FileSystem) (p : jsstring) :
  readFileSync fs' p = readFileSync fs p ->
  parseDesktopFile fs' p = parseDesktopFile fs p.
Proof. intros H. unfold parseDesktopFile. rewrite H. reflexivity. Qed.

Lemma candidatesOf_pruned (fs fs' : FileSystem) (dir : jsstring)
  (accept : jsstring -> bool) :
  (forall p, existsSync fs' p = existsSync fs p) ->
  (forall p, readFileSync fs' p = readFileSync fs p) ->
  readdirSync fs' dir =
    option_map (filter (isModule fs dir)) (readdirSync fs dir) ->
  candidatesOf fs' dir accept = candidatesOf fs dir accept.
Proof.
  intros He Hr Hd. unfold candidatesOf. rewrite He, Hd.
  destruct (existsSync fs dir); [|reflexivity].
  destruct (readdirSync fs dir) as [files|]; [|reflexivity]. simpl.
  rewrite (flat_map_agree _ _ _
             (fun file => if accept file
                          then optionToList
                                 (parseDesktopFile fs (join dir file))
                          else [])).
  - apply flat_map_filter_empty. intros file Hm. unfold isModule in Hm.
    destruct (accept file); [|reflexivity].
    destruct (parseDesktopFile fs (join dir file)); [discriminate|].
    reflexivity.
  - intros file _.
    rewrite (parseDesktopFile_same_reads fs fs' _ (Hr (join dir file))).
    reflexivity.
Qed.

(** X16: entries that are not modules make no difference.  Striking
    from the two listings every entry that is unreadable or that the
    parser turns down leaves the scan's result as it was: a broken file
    costs nothing but itself. *)
Theorem X16_non_modules_make_no_difference
  (localeCompare : jsstring -> jsstring -> Z) (fs fs' : FileSystem) :
  PrunedListings fs fs' ->
  loadKCMModules localeCompare fs' = loadKCMModules localeCompare fs.
Proof.
  intros (He & Hr & Ha & Hb). unfold loadKCMModules.
  rewrite !collectModules_keepFirst.
  unfold modernCandidates, legacyCandidates.
  rewrite (candidatesOf_pruned fs fs' _ _ He Hr Ha),
    (candidatesOf_pruned fs fs' _ _ He Hr Hb).
  reflexivity.
Qed.

Lemma X16_non_modules_make_no_difference_witness :
  PrunedListings sampleFileSystem prunedFileSystem /\
  loadKCMModules compareCodeUnits prunedFileSystem =
  loadKCMModules compareCodeUnits sampleFileSystem.
Proof.
  assert (H : PrunedListings sampleFileSystem prunedFileSystem).
  { split; [reflexivity|]. split; [reflexivity|].
    split; reflexivity. }
  split; [exact H|].
  exact (X16_non_modules_make_no_difference compareCodeUnits
           sampleFileSystem prunedFileSystem H).
Defined.
